(** * BrowserView: framing, transport and view state of [src/bun/core/BrowserView.ts]

    A shallow embedding of the TypeScript class [BrowserView] and of the
    functions around it.  JavaScript strings are sequences of UTF-16 code
    units, JavaScript numbers that index strings are integers ([Z]),
    module-level mutable bindings are threaded explicitly, and calls into
    other modules (the socket, the zig bridge, the console, the file
    system) are recorded as events of a trace. *)

From Stdlib Require Import ZArith NArith Lia List String Ascii.
From Stdlib Require Import DecimalString DecimalN.
From stdpp Require Import base list gmap sorting.
From Equations Require Import Equations.
Import ListNotations.

Local Open Scope Z_scope.

(** ** JavaScript strings *)

(** A string value is its sequence of UTF-16 code units; [js.length] counts
    code units. *)
Abbreviation jsstring := (list N).

Definition str (s : string) : jsstring :=
  map N_of_ascii (list_ascii_of_string s).

Definition js_length (s : jsstring) : Z := Z.of_nat (length s).

(** [String.prototype.slice(start, end)]: negative arguments count from the
    end, both are clamped to [0, length], and an empty string results when
    the clamped end is not after the clamped start. *)
Definition slice_clamp (len i : Z) : Z :=
  if i <? 0 then Z.max (len + i) 0 else Z.min i len.

Definition slice (s : jsstring) (start stop : Z) : jsstring :=
  let from := slice_clamp (js_length s) start in
  let to := slice_clamp (js_length s) stop in
  take (Z.to_nat (to - from)) (drop (Z.to_nat from) s).

(** [s.slice(start)]: the end defaults to the length. *)
Definition slice_from (s : jsstring) (start : Z) : jsstring :=
  slice s start (js_length s).

Definition newline : jsstring := [10%N].

(** [s.indexOf(c)] for a search string of one code unit: the index of its
    first occurrence, or [-1]. *)
Fixpoint indexOf (s : jsstring) (c : N) : Z :=
  match s with
  | [] => -1
  | d :: rest =>
      if N.eqb d c then 0
      else let i := indexOf rest c in if i <? 0 then -1 else i + 1
  end.

(** The code units [String.prototype.trim] strips: the WhiteSpace and
    LineTerminator productions of ECMAScript. *)
Definition is_js_whitespace (c : N) : bool :=
  (existsb (N.eqb c)
     [0x09; 0x0A; 0x0B; 0x0C; 0x0D; 0x20; 0xA0; 0x1680; 0x2028; 0x2029;
      0x202F; 0x205F; 0x3000; 0xFEFF]
   || ((0x2000 <=? c) && (c <=? 0x200A)))%N.

Fixpoint trimStart (s : jsstring) : jsstring :=
  match s with
  | c :: rest => if is_js_whitespace c then trimStart rest else s
  | [] => []
  end.

Definition trimEnd (s : jsstring) : jsstring := rev (trimStart (rev s)).

Definition trim (s : jsstring) : jsstring := trimEnd (trimStart s).

(** [Number.prototype.toString] of a non-negative integer: its decimal
    digits. *)
Definition Number_toString (n : N) : jsstring :=
  str (NilEmpty.string_of_uint (N.to_uint n)).

(** ** UTF-8 encoding of a written string

    [fs.WriteStream.write(string)] encodes the string as UTF-8 (the default
    encoding).  A surrogate pair becomes one four-byte sequence; a surrogate
    that is not part of a pair is replaced by U+FFFD, as every UTF-8 encoder
    of a JavaScript runtime does. *)

Definition is_high_surrogate (c : N) : bool := ((0xD800 <=? c) && (c <=? 0xDBFF))%N.
Definition is_low_surrogate (c : N) : bool := ((0xDC00 <=? c) && (c <=? 0xDFFF))%N.

Definition utf8_of_code_point (cp : N) : list N :=
  (if cp <? 0x80 then [cp]
   else if cp <? 0x800 then
     [0xC0 + cp / 64; 0x80 + cp mod 64]
   else if cp <? 0x10000 then
     [0xE0 + cp / 4096; 0x80 + (cp / 64) mod 64; 0x80 + cp mod 64]
   else
     [0xF0 + cp / 262144; 0x80 + (cp / 4096) mod 64;
      0x80 + (cp / 64) mod 64; 0x80 + cp mod 64])%N.

Definition replacement_character : list N := [0xEF; 0xBF; 0xBD]%N.

Definition code_point_of_pair (hi lo : N) : N :=
  (0x10000 + (hi - 0xD800) * 1024 + (lo - 0xDC00))%N.

Fixpoint utf8_encode (s : jsstring) : list N :=
  match s with
  | [] => []
  | c :: rest =>
      if is_high_surrogate c then
        match rest with
        | d :: rest' =>
            if is_low_surrogate d
            then utf8_of_code_point (code_point_of_pair c d) ++ utf8_encode rest'
            else replacement_character ++ utf8_encode rest
        | [] => replacement_character
        end
      else if is_low_surrogate c then replacement_character ++ utf8_encode rest
      else utf8_of_code_point c ++ utf8_encode rest
  end.

(** ** Values, exceptions, views *)

(** A value of type [any].  Objects are known by their identity only; what
    the runtime does with them (serialising, calling) is a parameter of the
    sections below. *)
Inductive any : Type :=
| JUndefined
| JNull
| JBool (b : bool)
| JNumber (n : Z)
| JString (s : jsstring)
| JObject (ref : nat).

Inductive exn : Type :=
| TypeError                                   (* JSON.stringify *)
| SyntaxError                                 (* JSON.parse *)
| ExecError (status : Z) (stderr : jsstring)  (* execSync: the child failed *)
| ThrownValue (v : any).                      (* thrown by a caller's function *)

Inductive outcome (A : Type) : Type :=
| Returned (a : A)
| Thrown (e : exn).
Arguments Returned {A} a.
Arguments Thrown {A} e.

Record Frame : Type := {
  frame_x : Z;
  frame_y : Z;
  frame_width : Z;
  frame_height : Z;
}.

(** An object literal for a frame that may leave fields out. *)
Record PartialFrame : Type := {
  given_x : option Z;
  given_y : option Z;
  given_width : option Z;
  given_height : option Z;
}.

(** [Partial<BrowserViewOptions>]: [None] is a field that is absent (or
    [null]); [autoResize] keeps whatever value the caller passed. *)
Record BrowserViewOptions : Type := {
  opt_url : option jsstring;
  opt_html : option jsstring;
  opt_preload : option jsstring;
  opt_partition : option jsstring;
  opt_frame : option PartialFrame;
  opt_rpc : option nat;
  opt_hostWebviewId : option N;
  opt_autoResize : any;
}.

Record BrowserView : Type := {
  view_id : N;
  hostWebviewId : option N;
  url : option jsstring;
  html : option jsstring;
  preload : option jsstring;
  partition : option jsstring;
  autoResize : bool;
  frame : Frame;
  pipePrefix : jsstring;
  inStream : option jsstring;   (* path of the opened write stream *)
  outStream : option jsstring;  (* path of the opened read stream *)
  secretKey : list N;
  rpc : option nat;
}.

(** ** Effects

    A call that leaves the class is an event; a computation yields its
    events in order and either returns or throws. *)
Inductive console_arg : Type :=
| ArgError (e : exn)
| ArgString (s : jsstring).

Inductive event : Type :=
| SendViaSocket (id : N) (message : any)
| JSONStringify (v : any)
| JSONParse (text : jsstring)
| InStreamWrite (chunk : jsstring)
| ConsoleLog (text : jsstring)
| ConsoleError (text : jsstring) (arg : console_arg)
| ExecSync (command : jsstring)
| CreateWriteStream (path : jsstring)
| OpenReadStream (path : jsstring)
| SetTransport (rpc : nat) (id : N)
| ZigCreateWebview (view : BrowserView)
| ZigLoadURL (webviewId : N) (u : jsstring)
| ZigLoadHTML (webviewId : N) (h : jsstring)
| HandlerCall (message : any)
| Call (fn : nat) (args : list any).

Definition M (A : Type) : Type := (list event * outcome A)%type.

Definition ret {A} (a : A) : M A := ([], Returned a).
Definition emit (ev : event) : M unit := ([ev], Returned tt).
Definition lift {A} (o : outcome A) : M A := ([], o).

Definition bind {A B} (m : M A) (k : A -> M B) : M B :=
  match m with
  | (t, Returned a) => let '(t', r) := k a in (t ++ t', r)
  | (t, Thrown e) => (t, Thrown e)
  end.

(** [try { m } catch (e) { h e }] *)
Definition try_catch {A} (m : M A) (h : exn -> M A) : M A :=
  match m with
  | (t, Thrown e) => let '(t', r) := h e in (t ++ t', r)
  | (t, Returned a) => (t, Returned a)
  end.

Notation "x <- m ;; k" := (bind m (fun x => k))
  (at level 62, m at next level, right associativity).
Notation "m ;;; k" := (bind m (fun _ => k))
  (at level 62, right associativity).

Definition trace {A} (m : M A) : list event := fst m.
Definition result {A} (m : M A) : outcome A := snd m.

(** What a trace wrote to the view's inbound pipe, write by write. *)
Definition pipe_writes (t : list event) : list jsstring :=
  omap (fun ev => match ev with InStreamWrite c => Some c | _ => None end) t.

(** ** The chunked write of [executeJavascript] *)

Definition CHUNK_SIZE : Z := 1024 * 4.

(** The [while (offset < js.length)] loop; the result lists the arguments of
    the successive [this.inStream.write(chunk)] calls. *)
Equations? executeJavascript_loop (js : jsstring) (offset : Z) : list jsstring
  by wf (Z.to_nat (js_length js - offset)) lt :=
  executeJavascript_loop js offset with Z_lt_dec offset (js_length js) => {
    | left _ =>
        slice js offset (offset + CHUNK_SIZE)
          :: executeJavascript_loop js (offset + CHUNK_SIZE);
    | right _ => [] }.
Proof. unfold CHUNK_SIZE. lia. Qed.

Definition executeJavascript (js : jsstring) : M unit :=
  (map InStreamWrite (executeJavascript_loop js 0), Returned tt) ;;;
  emit (InStreamWrite newline).

(** The UTF-8 bytes that one [write] puts on the pipe. *)
Definition bytes_written (chunk : jsstring) : list N := utf8_encode chunk.

(** ** The transport of one view: [createTransport] *)

Lemma indexOf_lt_length (s : jsstring) (c : N) : indexOf s c < js_length s.
Proof.
  unfold js_length. induction s as [|d s IH]; simpl; [lia|].
  destruct (N.eqb d c); [lia|].
  destruct (Z.ltb_spec (indexOf s c) 0); lia.
Qed.

Lemma slice_from_length (s : jsstring) (i : Z) :
  0 <= i -> length (slice_from s i) = (length s - Z.to_nat i)%nat.
Proof.
  intros Hi. unfold slice_from, slice, slice_clamp, js_length.
  destruct (Z.ltb_spec i 0); [lia|].
  destruct (Z.ltb_spec (Z.of_nat (length s)) 0); [lia|].
  rewrite length_take, length_drop. lia.
Qed.

Section Transport.

(** The members of other modules and of the runtime that the transport
    calls: the socket path of [./Socket] (its boolean result),
    [JSON.stringify] (a string, [undefined], or an exception),
    [JSON.parse], [new TextDecoder().decode] and the handler that the RPC
    layer registers. *)
Variable sendMessageToWebviewViaSocket : N -> any -> bool.
Variable JSON_stringify : any -> outcome (option jsstring).
Variable JSON_parse : jsstring -> outcome any.
Variable TextDecoder_decode : list N -> jsstring.
Variable handler : any -> outcome unit.

(** A template literal's [${v}] for a string or [undefined]. *)
Definition template_part (v : option jsstring) : jsstring :=
  match v with
  | Some s => s
  | None => str "undefined"
  end.

Definition sendMessageToWebviewViaExecute (jsonMessage : any) : M unit :=
  stringifiedMessage <-
    match jsonMessage with
    | JString s => ret (Some s)
    | _ => emit (JSONStringify jsonMessage) ;;; lift (JSON_stringify jsonMessage)
    end ;;
  let wrappedMessage :=
    str "window.__electrobun.receiveMessageFromBun("
      ++ template_part stringifiedMessage ++ str ")" in
  executeJavascript wrappedMessage.

Definition string_or_undefined (v : option jsstring) : any :=
  match v with
  | Some s => JString s
  | None => JUndefined
  end.

(** [createTransport().send] *)
Definition send (that : BrowserView) (message : any) : M unit :=
  emit (SendViaSocket (view_id that) message) ;;;
  let sentOverSocket := sendMessageToWebviewViaSocket (view_id that) message in
  if negb sentOverSocket then
    try_catch
      (messageString <-
         (emit (JSONStringify message) ;;; lift (JSON_stringify message)) ;;
       sendMessageToWebviewViaExecute (string_or_undefined messageString))
      (fun error =>
         emit (ConsoleError
                 (str "bun: failed to serialize message to webview")
                 (ArgError error)))
  else ret tt.

(** The body of [if (line) { try { ... } catch { ... } }]. *)
Definition readFromPipe_line (line : jsstring) : M unit :=
  match line with
  | [] => ret tt
  | _ :: _ =>
      try_catch
        (ev <- (emit (JSONParse line) ;;; lift (JSON_parse line)) ;;
         emit (HandlerCall ev) ;;; lift (handler ev))
        (fun error => emit (ConsoleError (str "webview: ") (ArgString line)))
  end.

(** The inner [while ((eolIndex = buffer.indexOf("\n")) >= 0)] loop; it
    returns the buffer that is left. *)
Equations? readFromPipe_drain (buffer : jsstring) : M jsstring
  by wf (length buffer) lt :=
  readFromPipe_drain buffer with Z_le_dec 0 (indexOf buffer 10%N) => {
    | left _ =>
        readFromPipe_line (trim (slice buffer 0 (indexOf buffer 10%N))) ;;;
        readFromPipe_drain (slice_from buffer (indexOf buffer 10%N + 1));
    | right _ => ret buffer }.
Proof.
  pose proof (indexOf_lt_length buffer 10%N) as Hlt.
  rewrite slice_from_length by lia. unfold js_length in Hlt. lia.
Qed.

(** The outer [while (true)] loop over the values that [reader.read()]
    yields until it reports [done]. *)
Fixpoint readFromPipe_loop (reads : list (list N)) (buffer : jsstring) : M unit :=
  match reads with
  | [] => ret tt
  | value :: reads' =>
      buffer' <- readFromPipe_drain (buffer ++ TextDecoder_decode value) ;;
      readFromPipe_loop reads' buffer'
  end.

Definition readFromPipe (reads : list (list N)) : M unit :=
  readFromPipe_loop reads [].

End Transport.

(** ** Construction and loading of a view *)

Definition defaultOptions : BrowserViewOptions := {|
  opt_url := Some (str "https://electrobun.dev");
  opt_html := None;
  opt_preload := None;
  opt_partition := None;
  opt_frame := Some {| given_x := Some 0; given_y := Some 0;
                       given_width := Some 800; given_height := Some 600 |};
  opt_rpc := None;
  opt_hostWebviewId := None;
  opt_autoResize := JUndefined;
|}.

(** [a || b] on values that are a string or [null]/[undefined]: the empty
    string is falsy. *)
Definition js_or (a b : option jsstring) : option jsstring :=
  match a with
  | Some (_ :: _) => a
  | _ => b
  end.

(** [{ ...base, ...over }] for frames: a field of [over] that is present
    wins. *)
Definition spread_frame (base : Frame) (over : PartialFrame) : Frame := {|
  frame_x := default (frame_x base) (given_x over);
  frame_y := default (frame_y base) (given_y over);
  frame_width := default (frame_width base) (given_width over);
  frame_height := default (frame_height base) (given_height over);
|}.

Definition empty_frame : Frame :=
  {| frame_x := 0; frame_y := 0; frame_width := 0; frame_height := 0 |}.

(** [defaultOptions.frame], which has all four fields. *)
Definition default_frame : Frame :=
  match opt_frame defaultOptions with
  | Some f => spread_frame empty_frame f
  | None => empty_frame
  end.

(** The module-level bindings [nextWebviewId] and [BrowserViewMap].  Ids are
    counted in [N]: the counter stays in the range where a JavaScript number
    is an exact integer. *)
Record Globals : Type := {
  nextWebviewId : N;
  BrowserViewMap : gmap N BrowserView;
}.

Definition initial_globals : Globals :=
  {| nextWebviewId := 1; BrowserViewMap := ∅ |}.

Definition loadURL (this : BrowserView) (u : jsstring) : M BrowserView :=
  let this' := {|
    view_id := view_id this; hostWebviewId := hostWebviewId this;
    url := Some u;
    html := html this; preload := preload this; partition := partition this;
    autoResize := autoResize this; frame := frame this;
    pipePrefix := pipePrefix this; inStream := inStream this;
    outStream := outStream this; secretKey := secretKey this; rpc := rpc this |} in
  emit (ZigLoadURL (view_id this') u) ;;; ret this'.

Definition loadHTML (this : BrowserView) (h : jsstring) : M BrowserView :=
  let this' := {|
    view_id := view_id this; hostWebviewId := hostWebviewId this;
    url := url this;
    html := Some h;
    preload := preload this; partition := partition this;
    autoResize := autoResize this; frame := frame this;
    pipePrefix := pipePrefix this; inStream := inStream this;
    outStream := outStream this; secretKey := secretKey this; rpc := rpc this |} in
  emit (ZigLoadHTML (view_id this') h) ;;; ret this'.

Section Lifecycle.

(** [hash] is the build's hash from the updater, [randomId] the random
    string drawn once per process, [execSync] what running a shell command
    does: it returns, or throws when the command fails. *)
Variable hash : jsstring.
Variable randomId : jsstring.
Variable execSync : jsstring -> outcome unit.

Definition pipePrefix_of (id : N) : jsstring :=
  str "/private/tmp/electrobun_ipc_pipe_" ++ hash ++ str "_" ++ randomId
    ++ str "_" ++ Number_toString id.

Definition createStreams (this : BrowserView) : M BrowserView :=
  let webviewPipeIn := pipePrefix this ++ str "_in" in
  let webviewPipeOut := pipePrefix this ++ str "_out" in
  try_catch
    (emit (ExecSync (str "mkfifo " ++ webviewPipeOut)) ;;;
     lift (execSync (str "mkfifo " ++ webviewPipeOut)))
    (fun e => emit (ConsoleLog (str "pipe out already exists"))) ;;;
  try_catch
    (emit (ExecSync (str "mkfifo " ++ webviewPipeIn)) ;;;
     lift (execSync (str "mkfifo " ++ webviewPipeIn)))
    (fun e => emit (ConsoleLog (str "pipe in already exists"))) ;;;
  emit (CreateWriteStream webviewPipeIn) ;;;
  emit (InStreamWrite newline) ;;;
  emit (OpenReadStream webviewPipeOut) ;;;
  let this' := {|
    view_id := view_id this; hostWebviewId := hostWebviewId this;
    url := url this; html := html this; preload := preload this;
    partition := partition this; autoResize := autoResize this;
    frame := frame this; pipePrefix := pipePrefix this;
    inStream := Some webviewPipeIn;
    outStream := Some webviewPipeOut;
    secretKey := secretKey this; rpc := rpc this |} in
  match rpc this' with
  | Some r => emit (SetTransport r (view_id this'))
  | None => ret tt
  end ;;;
  ret this'.

Definition init (g : Globals) (this : BrowserView) : M (BrowserView * Globals) :=
  emit (ZigCreateWebview this) ;;;
  this' <- createStreams this ;;
  ret (this',
       {| nextWebviewId := nextWebviewId g;
          BrowserViewMap := <[view_id this' := this']> (BrowserViewMap g) |}).

(** The assignments of the constructor's body, for a view whose [id]
    initialiser drew [id].  [randomBytes32] is what [randomBytes(32)]
    draws. *)
Definition constructor_fields (id : N) (randomBytes32 : list N)
    (options : BrowserViewOptions) : BrowserView := {|
  view_id := id;
  hostWebviewId := opt_hostWebviewId options;
  url := js_or (js_or (opt_url options) (opt_url defaultOptions)) None;
  html := js_or (js_or (opt_html options) (opt_html defaultOptions)) None;
  preload := js_or (js_or (opt_preload options) (opt_preload defaultOptions)) None;
  partition := js_or (opt_partition options) None;
  autoResize := match opt_autoResize options with
                | JBool false => false
                | _ => true
                end;
  frame := match opt_frame options with
           | Some f => spread_frame default_frame f
           | None => default_frame
           end;
  pipePrefix := pipePrefix_of id;
  inStream := None;
  outStream := None;
  secretKey := randomBytes32;
  rpc := opt_rpc options |}.

(** [new BrowserView(options)]; [None] is a call without the argument, for
    which the parameter defaults to [defaultOptions].  The field
    initialiser [id = nextWebviewId++] runs first, [this.init()] last. *)
Definition new_BrowserView (g : Globals) (randomBytes32 : list N)
    (arg : option BrowserViewOptions) : M (BrowserView * Globals) :=
  let options := default defaultOptions arg in
  let id := nextWebviewId g in
  let g' := {| nextWebviewId := id + 1; BrowserViewMap := BrowserViewMap g |} in
  init g' (constructor_fields id randomBytes32 options).

(** Several constructions, one after the other, in one process. *)
Fixpoint new_BrowserViews (g : Globals)
    (calls : list (list N * option BrowserViewOptions))
    : M (list BrowserView * Globals) :=
  match calls with
  | [] => ret ([], g)
  | (key, arg) :: calls' =>
      made <- new_BrowserView g key arg ;;
      more <- new_BrowserViews (snd made) calls' ;;
      ret (fst made :: fst more, snd more)
  end.

End Lifecycle.

(** ** The message listener of [defineRPC] *)

Section DefineRPC.

(** What calling a function value does: it returns or throws. *)
Variable call_function : nat -> list any -> outcome unit.

Definition call (fn : nat) (args : list any) : M unit :=
  emit (Call fn args) ;;; lift (call_function fn args).

(** What a read [messageHandlers[name]] can yield on a plain object: a
    function the configuration stored under that name, or a member the
    object inherits from [Object.prototype]. *)
Inductive member : Type :=
| OwnFunction (fn : nat)
| InheritedFunction (name : jsstring)
| PrototypeObject.

(** The function-valued properties of [Object.prototype]. *)
Definition Object_prototype_functions : list jsstring :=
  [str "constructor"; str "hasOwnProperty"; str "isPrototypeOf";
   str "propertyIsEnumerable"; str "toLocaleString"; str "toString";
   str "valueOf"; str "__defineGetter__"; str "__defineSetter__";
   str "__lookupGetter__"; str "__lookupSetter__"].

(** Whether a read of [name] on an object without such an own property
    finds something on [Object.prototype]. *)
Definition inherited_name (name : jsstring) : bool :=
  bool_decide (name = str "__proto__")
  || bool_decide (name ∈ Object_prototype_functions).

(** [messageHandlers[name]]: the own property if there is one, else what
    the prototype chain gives; [None] is [undefined]. *)
Definition property_get (messageHandlers : gmap (list N) nat)
    (name : jsstring) : option member :=
  match messageHandlers !! name with
  | Some fn => Some (OwnFunction fn)
  | None =>
      if bool_decide (name = str "__proto__") then Some PrototypeObject
      else if bool_decide (name ∈ Object_prototype_functions)
           then Some (InheritedFunction name)
           else None
  end.

(** A plain call [f(args)] of a function of [Object.prototype], in strict
    code, where [this] is [undefined]: [Object] and [toString] return,
    [isPrototypeOf] returns for a primitive argument, and every other one
    fails to convert [this] to an object. *)
Definition call_inherited (name : jsstring) (args : list any) : outcome unit :=
  if bool_decide (name = str "constructor") then Returned tt
  else if bool_decide (name = str "toString") then Returned tt
  else if bool_decide (name = str "isPrototypeOf") then
    match args with
    | JObject _ :: _ => Thrown TypeError
    | _ => Returned tt
    end
  else Thrown TypeError.

(** [m(args)] for the value a property read gave; calling the prototype
    object itself, which is no function, is a [TypeError]. *)
Definition apply_member (m : member) (args : list any) : M unit :=
  match m with
  | OwnFunction fn => call fn args
  | InheritedFunction name => lift (call_inherited name args)
  | PrototypeObject => lift (Thrown TypeError)
  end.

(** The listener registered with [rpc.addMessageListener("*", ...)];
    [messageHandlers] holds the functions the configuration stores, by
    property name, in a plain object. *)
Definition message_listener (messageHandlers : gmap (list N) nat)
    (messageName : jsstring) (payload : any) : M unit :=
  match property_get messageHandlers (str "*") with
  | Some globalHandler => apply_member globalHandler [JString messageName; payload]
  | None => ret tt
  end ;;;
  match property_get messageHandlers messageName with
  | Some messageHandler => apply_member messageHandler [payload]
  | None => ret tt
  end.

Record RPCConfig : Type := {
  maxRequestTime : option Z;
  handlers_requests : option nat;
  handlers_messages : option (gmap (list N) nat);
}.

(** The part of the object [createRPC] returns that [defineRPC] touches:
    its wildcard message listeners. *)
Record RPC : Type := {
  rpc_maxRequestTime : option Z;
  rpc_requestHandler : option nat;
  wildcard_listeners : list (jsstring -> any -> M unit);
}.

Definition defineRPC (config : RPCConfig) : RPC := {|
  rpc_maxRequestTime := maxRequestTime config;
  rpc_requestHandler := handlers_requests config;
  wildcard_listeners :=
    match handlers_messages config with
    | Some messageHandlers => [message_listener messageHandlers]
    | None => []
    end;
|}.

(** An inbound fire-and-forget message reaches every wildcard listener
    with its name and payload. *)
Fixpoint run_listeners (ls : list (jsstring -> any -> M unit))
    (name : jsstring) (payload : any) : M unit :=
  match ls with
  | [] => ret tt
  | l :: ls' => l name payload ;;; run_listeners ls' name payload
  end.

Definition receive_message (r : RPC) (name : jsstring) (payload : any) : M unit :=
  run_listeners (wildcard_listeners r) name payload.

End DefineRPC.

(** * Properties *)

(** ** Traces *)

Lemma pipe_writes_app (t1 t2 : list event) :
  pipe_writes (t1 ++ t2) = pipe_writes t1 ++ pipe_writes t2.
Proof. unfold pipe_writes. apply omap_app. Qed.

Lemma pipe_writes_InStreamWrite (chunks : list jsstring) :
  pipe_writes (map InStreamWrite chunks) = chunks.
Proof.
  induction chunks as [|c chunks IH]; [reflexivity|].
  cbn. unfold pipe_writes in IH. now rewrite IH.
Qed.

Lemma trace_bind {A B} (m : M A) (k : A -> M B) :
  trace (bind m k)
  = match result m with
    | Returned a => trace m ++ trace (k a)
    | Thrown _ => trace m
    end.
Proof.
  destruct m as [t [a|e]]; simpl; [|reflexivity].
  unfold trace. now destruct (k a).
Qed.

Lemma result_bind {A B} (m : M A) (k : A -> M B) :
  result (bind m k)
  = match result m with
    | Returned a => result (k a)
    | Thrown e => Thrown e
    end.
Proof.
  destruct m as [t [a|e]]; simpl; [|reflexivity].
  unfold result. now destruct (k a).
Qed.

Lemma M_eta {A} (m : M A) : m = (trace m, result m).
Proof. now destruct m. Qed.

Lemma bind_returned {A B} (t : list event) (a : A) (k : A -> M B) :
  bind (t, Returned a) k = (t ++ trace (k a), result (k a)).
Proof. unfold bind. now destruct (k a). Qed.

(** *** Facts about [slice] and the loop *)

Lemma js_length_nonneg (s : jsstring) : 0 <= js_length s.
Proof. unfold js_length. lia. Qed.

Lemma slice_window (s : jsstring) (o n : Z) :
  0 <= o -> 0 <= n ->
  slice s o (o + n) = take (Z.to_nat n) (drop (Z.to_nat o) s).
Proof.
  intros Ho Hn. unfold slice, slice_clamp, js_length.
  destruct (Z.ltb_spec o 0); [lia|].
  destruct (Z.ltb_spec (o + n) 0); [lia|].
  destruct (Z.le_gt_cases (o + n) (Z.of_nat (length s))) as [Hin | Hout].
  - rewrite !Z.min_l by lia. do 2 f_equal. lia.
  - rewrite (Z.min_r (o + n)) by lia.
    destruct (Z.le_gt_cases o (Z.of_nat (length s))) as [Ho' | Ho'].
    + rewrite Z.min_l by lia.
      rewrite !take_ge; [reflexivity | rewrite length_drop; lia ..].
    + rewrite Z.min_r by lia. rewrite Z.sub_diag. simpl.
      rewrite (drop_ge s (Z.to_nat o)) by lia. now rewrite take_nil.
Qed.

Lemma slice_chunk_length (s : jsstring) (o : Z) :
  0 <= o ->
  Z.of_nat (length (slice s o (o + CHUNK_SIZE)))
  = Z.min CHUNK_SIZE (Z.max 0 (js_length s - o)).
Proof.
  intros Ho. rewrite slice_window by (unfold CHUNK_SIZE; lia).
  rewrite length_take, length_drop. unfold js_length, CHUNK_SIZE. lia.
Qed.

(** The chunks written by the loop, put end to end, are the part of the
    string from [offset] on. *)
Lemma executeJavascript_loop_concat (js : jsstring) (offset : Z) :
  0 <= offset ->
  concat (executeJavascript_loop js offset) = drop (Z.to_nat offset) js.
Proof.
  funelim (executeJavascript_loop js offset); intros Ho.
  - simpl. rewrite H by (unfold CHUNK_SIZE; lia).
    rewrite slice_window by (unfold CHUNK_SIZE; lia).
    replace (Z.to_nat (offset + CHUNK_SIZE))
      with (Z.to_nat offset + Z.to_nat CHUNK_SIZE)%nat
      by (unfold CHUNK_SIZE; lia).
    rewrite <- drop_drop. apply take_drop.
  - simpl. rewrite drop_ge; [reflexivity | unfold js_length in *; lia].
Qed.

(** Every chunk holds between one and [CHUNK_SIZE] code units. *)
Lemma executeJavascript_loop_sizes (js : jsstring) (offset : Z) :
  0 <= offset ->
  Forall (fun chunk => 1 <= js_length chunk <= CHUNK_SIZE)
         (executeJavascript_loop js offset).
Proof.
  funelim (executeJavascript_loop js offset); intros Ho.
  - constructor.
    + unfold js_length at 1 2. rewrite slice_chunk_length by lia.
      unfold CHUNK_SIZE in *. lia.
    + apply H. unfold CHUNK_SIZE. lia.
  - constructor.
Qed.

(** When what remains is [k] whole chunks, the loop writes exactly [k]
    chunks of [CHUNK_SIZE] code units. *)
Lemma executeJavascript_loop_whole (js : jsstring) (offset : Z) :
  forall k : Z,
  0 <= offset -> 0 <= k -> js_length js - offset = k * CHUNK_SIZE ->
  Z.of_nat (length (executeJavascript_loop js offset)) = k
  /\ Forall (fun chunk => js_length chunk = CHUNK_SIZE)
            (executeJavascript_loop js offset).
Proof.
  funelim (executeJavascript_loop js offset); intros k Ho Hk Hlen.
  - destruct (H (k - 1)) as [Hn Hall]; [unfold CHUNK_SIZE in *; lia ..|].
    split.
    + simpl length. lia.
    + constructor; [|exact Hall].
      unfold js_length at 1. rewrite slice_chunk_length by lia.
      unfold CHUNK_SIZE in *. lia.
  - split; [|constructor]. simpl. unfold CHUNK_SIZE in *. lia.
Qed.

(** ** What [executeJavascript] writes *)

Lemma executeJavascript_writes (js : jsstring) :
  pipe_writes (trace (executeJavascript js))
  = executeJavascript_loop js 0 ++ [newline].
Proof.
  unfold executeJavascript. rewrite trace_bind. simpl.
  now rewrite pipe_writes_app, pipe_writes_InStreamWrite.
Qed.

Lemma executeJavascript_returns (js : jsstring) :
  result (executeJavascript js) = Returned tt.
Proof. reflexivity. Qed.

(** The chunks, in the order written, make up the string, each holds at
    most [CHUNK_SIZE] code units and none is empty, and the last write is
    the newline. *)
Lemma executeJavascript_chunks (js : jsstring) :
  exists chunks,
    pipe_writes (trace (executeJavascript js)) = chunks ++ [newline]
    /\ concat chunks = js
    /\ Forall (fun chunk => 1 <= js_length chunk <= CHUNK_SIZE) chunks.
Proof.
  exists (executeJavascript_loop js 0). split; [apply executeJavascript_writes|].
  split.
  - now rewrite executeJavascript_loop_concat by lia.
  - apply executeJavascript_loop_sizes. lia.
Qed.

(** A string of code units below 128 is written byte for byte. *)
Lemma utf8_encode_ascii (s : jsstring) :
  Forall (fun c => (c < 128)%N) s -> utf8_encode s = s.
Proof.
  induction 1 as [|c s Hc _ IH]; [reflexivity|].
  simpl. unfold is_high_surrogate, is_low_surrogate, utf8_of_code_point.
  destruct (N.leb_spec 0xD800 c); [lia|].
  destruct (N.leb_spec 0xDC00 c); [lia|].
  destruct (N.ltb_spec c 0x80); [|lia].
  simpl. now rewrite IH.
Qed.

(** For such a string every write is at most 4096 bytes and the bytes on
    the pipe before the newline are the bytes of the string. *)
Lemma executeJavascript_ascii_bytes (js : jsstring) :
  Forall (fun c => (c < 128)%N) js ->
  exists chunks,
    pipe_writes (trace (executeJavascript js)) = chunks ++ [newline]
    /\ Forall (fun chunk => Z.of_nat (length (bytes_written chunk)) <= 4096) chunks
    /\ concat (map bytes_written chunks) = bytes_written js.
Proof.
  intros Hascii.
  destruct (executeJavascript_chunks js) as (chunks & Hw & Hcat & Hsz).
  exists chunks. split; [exact Hw|].
  assert (Hall : Forall (fun chunk => Forall (fun c => (c < 128)%N) chunk) chunks).
  { subst js. clear Hw Hsz. induction chunks as [|c cs IH]; [constructor|].
    simpl in Hascii. apply Forall_app in Hascii as [H1 H2].
    constructor; auto. }
  split.
  - clear Hw Hcat. induction Hsz as [|c cs Hc _ IH]; [constructor|].
    inversion Hall; subst. constructor; [|auto].
    unfold bytes_written. rewrite utf8_encode_ascii by assumption.
    unfold js_length, CHUNK_SIZE in Hc. lia.
  - unfold bytes_written. rewrite utf8_encode_ascii by assumption.
    rewrite <- Hcat. f_equal. clear Hw Hcat Hsz Hascii.
    induction Hall as [|c cs Hc _ IH]; [reflexivity|].
    simpl. now rewrite utf8_encode_ascii, IH.
Qed.

(** C1.  [executeJavascript] cuts the string every 4096 UTF-16 code units,
    not every 4096 bytes.  On 4096 euro signs (U+20AC, three bytes each) it
    issues one write of 12288 bytes; and when a surrogate pair straddles a
    cut (4095 letters followed by U+1F600), each half is written on its own
    and reaches the pipe as the replacement character, so the bytes on the
    pipe are not the bytes of the string. *)
Theorem executeJavascript_chunk_exceeds_4096_bytes :
  (let js := repeat 0x20AC%N 4096 in
   pipe_writes (trace (executeJavascript js)) = [js; newline]
   /\ Z.of_nat (length (bytes_written js)) = 12288)
  /\
  (let js := repeat 97%N 4095 ++ [0xD83D; 0xDE00]%N in
   pipe_writes (trace (executeJavascript js))
   = [repeat 97%N 4095 ++ [0xD83D]%N; [0xDE00]%N; newline]
   /\ drop 4095 (bytes_written js) = [0xF0; 0x9F; 0x98; 0x80]%N
   /\ drop 4095 (bytes_written (repeat 97%N 4095 ++ [0xD83D]%N)
                 ++ bytes_written [0xDE00]%N)
      = [0xEF; 0xBF; 0xBD; 0xEF; 0xBF; 0xBD]%N).
Proof.
  split; cbv zeta; rewrite !executeJavascript_writes.
  - split; vm_compute; reflexivity.
  - repeat split; vm_compute; reflexivity.
Qed.

(** C3.  When the length of the string is a positive multiple [k] of the
    chunk size, [executeJavascript] writes exactly [k] = length / 4096
    chunks, each non-empty (it has 4096 code units), then the newline, and
    nothing else: no empty chunk precedes the newline. *)
Theorem executeJavascript_exact_multiple (js : jsstring) (k : Z) :
  0 < k -> js_length js = k * CHUNK_SIZE ->
  exists chunks,
    pipe_writes (trace (executeJavascript js)) = chunks ++ [newline]
    /\ Z.of_nat (length chunks) = js_length js / 4096
    /\ Forall (fun chunk => chunk <> [] /\ js_length chunk = 4096) chunks
    /\ concat chunks = js.
Proof.
  intros Hk Hlen.
  exists (executeJavascript_loop js 0). split; [apply executeJavascript_writes|].
  destruct (executeJavascript_loop_whole js 0 k) as [Hn Hall]; [lia ..|].
  split; [|split].
  - rewrite Hn, Hlen. unfold CHUNK_SIZE. symmetry. apply Z.div_mul. lia.
  - eapply Forall_impl; [exact Hall|].
    intros c Hc. split; [|exact Hc].
    intros ->. unfold CHUNK_SIZE in Hc. discriminate.
  - now rewrite executeJavascript_loop_concat by lia.
Qed.

Lemma executeJavascript_exact_multiple_witness :
  exists chunks,
    pipe_writes (trace (executeJavascript (repeat 97%N (Z.to_nat 8192)))) = chunks ++ [newline]
    /\ Z.of_nat (length chunks) = js_length (repeat 97%N (Z.to_nat 8192)) / 4096
    /\ Forall (fun chunk => chunk <> [] /\ js_length chunk = 4096) chunks
    /\ concat chunks = repeat 97%N (Z.to_nat 8192).
Proof.
  apply (executeJavascript_exact_multiple (repeat 97%N (Z.to_nat 8192)) 2).
  - lia.
  - vm_compute. reflexivity.
Defined.

(** ** The decode loop *)

(** The newline-terminated lines of a text, in order, and what follows the
    last newline. *)
Fixpoint split_lines (text : jsstring) : list jsstring * jsstring :=
  match text with
  | [] => ([], [])
  | c :: text' =>
      let (lines, rest) := split_lines text' in
      if N.eqb c 10 then ([] :: lines, rest)
      else match lines with
           | [] => ([], c :: rest)
           | line :: lines' => ((c :: line) :: lines', rest)
           end
  end.

Definition complete_lines (text : jsstring) : list jsstring := fst (split_lines text).
Definition unterminated (text : jsstring) : jsstring := snd (split_lines text).

Example complete_lines_example :
  complete_lines (str "{}" ++ newline ++ newline ++ str "x") = [str "{}"; []]
  /\ unterminated (str "{}" ++ newline ++ newline ++ str "x") = str "x".
Proof. split; reflexivity. Qed.

Lemma indexOf_spec (s : jsstring) (c : N) :
  (indexOf s c = -1 /\ ~ In c s)
  \/ (exists l r, s = l ++ c :: r /\ ~ In c l /\ indexOf s c = Z.of_nat (length l)).
Proof.
  induction s as [|d s IH]; simpl.
  - left. split; [reflexivity | tauto].
  - destruct (N.eqb_spec d c) as [-> | Hne].
    + right. exists [], s. repeat split. tauto.
    + destruct IH as [[Hi Hnot] | (l & r & -> & Hnot & Hi)].
      * left. rewrite Hi. simpl. split; [reflexivity|]. intros [?|?]; tauto.
      * right. exists (d :: l), r. rewrite Hi.
        destruct (Z.ltb_spec (Z.of_nat (length l)) 0); [lia|].
        repeat split; [| simpl length; lia].
        intros [?|?]; tauto.
Qed.

Lemma slice_prefix (l r : jsstring) :
  slice (l ++ r) 0 (Z.of_nat (length l)) = l.
Proof.
  replace (Z.of_nat (length l)) with (0 + Z.of_nat (length l)) by lia.
  rewrite slice_window by lia. simpl. rewrite Nat2Z.id. apply take_app_length.
Qed.

Lemma slice_from_suffix (l r : jsstring) (c : N) :
  slice_from (l ++ c :: r) (Z.of_nat (length l) + 1) = r.
Proof.
  unfold slice_from, js_length.
  replace (Z.of_nat (length (l ++ c :: r)))
    with ((Z.of_nat (length l) + 1) + Z.of_nat (length r))
    by (rewrite length_app; simpl; lia).
  rewrite slice_window by lia.
  replace (Z.to_nat (Z.of_nat (length l) + 1)) with (length (l ++ [c]))
    by (rewrite length_app; simpl; lia).
  rewrite (cons_middle c l r), app_assoc, drop_app_length.
  apply take_ge. lia.
Qed.

Lemma split_lines_no_newline (s : jsstring) :
  ~ In 10%N s -> split_lines s = ([], s).
Proof.
  induction s as [|c s IH]; intros Hnot; [reflexivity|].
  simpl. rewrite IH by (intros H; apply Hnot; now right).
  destruct (N.eqb_spec c 10) as [-> | _]; [|reflexivity].
  exfalso. apply Hnot. now left.
Qed.

Lemma split_lines_first (l r : jsstring) :
  ~ In 10%N l ->
  split_lines (l ++ 10%N :: r)
  = (l :: complete_lines r, unterminated r).
Proof.
  unfold complete_lines, unterminated.
  induction l as [|c l IH]; intros Hnot; simpl.
  - now destruct (split_lines r).
  - rewrite IH by (intros H; apply Hnot; now right).
    destruct (N.eqb_spec c 10) as [-> | _]; [|reflexivity].
    exfalso. apply Hnot. now left.
Qed.

Lemma unterminated_no_newline (s : jsstring) : ~ In 10%N (unterminated s).
Proof.
  unfold unterminated. induction s as [|c s IH]; simpl; [tauto|].
  destruct (split_lines s) as [lines rest]. simpl in IH.
  destruct (N.eqb_spec c 10) as [-> | Hne]; [exact IH|].
  destruct lines; simpl; [|exact IH].
  intros [H|H]; [congruence | tauto].
Qed.

Lemma split_lines_app (a b : jsstring) :
  split_lines (a ++ b)
  = (complete_lines a ++ complete_lines (unterminated a ++ b),
     unterminated (unterminated a ++ b)).
Proof.
  unfold complete_lines, unterminated.
  induction a as [|c a IH]; simpl.
  - now destruct (split_lines b).
  - rewrite IH. destruct (split_lines a) as [lines rest]. simpl.
    destruct (N.eqb_spec c 10) as [-> | Hne]; [reflexivity|].
    destruct lines as [|line lines]; simpl; [|reflexivity].
    destruct (split_lines (rest ++ b)) as [lines' rest'].
    simpl. rewrite (proj2 (N.eqb_neq c 10)) by assumption.
    now destruct lines'.
Qed.

Section DecodeLoop.

Variable JSON_parse : jsstring -> outcome any.
Variable TextDecoder_decode : list N -> jsstring.
Variable handler : any -> outcome unit.

(** What the decoder owes for one newline-terminated line: nothing when
    the trimmed line is empty; otherwise one parse of the trimmed line,
    followed by the delivery of the parsed message to the handler, or by a
    report of the line when the parse (or the handler) throws. *)
Definition decode_line_spec (line : jsstring) : list event :=
  match trim line with
  | [] => []
  | payload =>
      match JSON_parse payload with
      | Returned message =>
          [JSONParse payload; HandlerCall message]
            ++ match handler message with
               | Returned _ => []
               | Thrown _ => [ConsoleError (str "webview: ") (ArgString payload)]
               end
      | Thrown _ =>
          [JSONParse payload; ConsoleError (str "webview: ") (ArgString payload)]
      end
  end.

(** The message a line decodes to, when it is not blank and parses. *)
Definition well_formed_message (line : jsstring) : option any :=
  match trim line with
  | [] => None
  | payload =>
      match JSON_parse payload with
      | Returned message => Some message
      | Thrown _ => None
      end
  end.

(** The messages a trace hands to the handler, in order. *)
Definition handler_calls (t : list event) : list any :=
  omap (fun ev => match ev with HandlerCall m => Some m | _ => None end) t.

Lemma handler_calls_app (t1 t2 : list event) :
  handler_calls (t1 ++ t2) = handler_calls t1 ++ handler_calls t2.
Proof. apply omap_app. Qed.

Lemma readFromPipe_line_spec (line : jsstring) :
  readFromPipe_line JSON_parse handler (trim line)
  = (decode_line_spec line, Returned tt).
Proof.
  unfold decode_line_spec, readFromPipe_line.
  destruct (trim line) as [|c payload]; [reflexivity|].
  destruct (JSON_parse (c :: payload)) as [message|e]; [|reflexivity].
  simpl. now destruct (handler message) as [[]|e].
Qed.

Lemma handler_calls_decode_line (line : jsstring) :
  handler_calls (decode_line_spec line) = option_list (well_formed_message line).
Proof.
  unfold decode_line_spec, well_formed_message.
  destruct (trim line) as [|c payload]; [reflexivity|].
  destruct (JSON_parse (c :: payload)) as [message|e]; [|reflexivity].
  simpl. now destruct (handler message).
Qed.

Lemma readFromPipe_drain_spec (buffer : jsstring) :
  readFromPipe_drain JSON_parse handler buffer
  = (flat_map decode_line_spec (complete_lines buffer),
     Returned (unterminated buffer)).
Proof.
  funelim (readFromPipe_drain JSON_parse handler buffer).
  - destruct (indexOf_spec buffer 10%N) as [[Hi _] | (pre & post & Hb & Hnot & Hi)];
      [lia|].
    rewrite Hi in *. subst buffer.
    rewrite slice_prefix, slice_from_suffix in *.
    rewrite readFromPipe_line_spec, (H tt).
    unfold complete_lines, unterminated.
    rewrite split_lines_first by assumption. reflexivity.
  - destruct (indexOf_spec buffer 10%N) as [[_ Hnot] | (pre & post & _ & _ & Hi)];
      [|lia].
    unfold complete_lines, unterminated.
    now rewrite split_lines_no_newline.
Qed.

Lemma readFromPipe_loop_spec (reads : list (list N)) :
  forall buffer : jsstring,
  ~ In 10%N buffer ->
  readFromPipe_loop JSON_parse TextDecoder_decode handler reads buffer
  = (flat_map decode_line_spec
       (complete_lines (buffer ++ concat (map TextDecoder_decode reads))),
     Returned tt).
Proof.
  induction reads as [|value reads IH]; intros buffer Hnot; simpl.
  - rewrite app_nil_r. unfold complete_lines.
    now rewrite split_lines_no_newline.
  - rewrite readFromPipe_drain_spec. cbn [bind].
    rewrite IH by apply unterminated_no_newline.
    rewrite app_assoc. unfold complete_lines at 3.
    rewrite (split_lines_app (buffer ++ TextDecoder_decode value)).
    cbn [fst]. now rewrite flat_map_app.
Qed.

(** C2.  Whatever the reads deliver, the decode loop treats the decoded
    stream line by line: every newline-terminated line is trimmed; a blank
    one is skipped without a parse or a report; any other is parsed, then
    delivered to the handler, or reported with [console.error] and dropped
    when the parse throws.  Hence the handler receives exactly the messages
    of the well-formed lines, in stream order, whatever malformed or blank
    lines lie between them, and the loop ends normally. *)
Theorem readFromPipe_decodes_each_line (reads : list (list N)) :
  let text := concat (map TextDecoder_decode reads) in
  trace (readFromPipe JSON_parse TextDecoder_decode handler reads)
  = flat_map decode_line_spec (complete_lines text)
  /\ result (readFromPipe JSON_parse TextDecoder_decode handler reads)
     = Returned tt
  /\ handler_calls (trace (readFromPipe JSON_parse TextDecoder_decode handler reads))
     = omap well_formed_message (complete_lines text).
Proof.
  intros text. unfold readFromPipe.
  rewrite readFromPipe_loop_spec by (simpl; tauto).
  simpl app. fold text. cbn [trace result fst snd].
  repeat split.
  induction (complete_lines text) as [|line lines IH]; [reflexivity|].
  simpl flat_map. rewrite handler_calls_app, IH, handler_calls_decode_line.
  simpl omap. now destruct (well_formed_message line).
Qed.

End DecodeLoop.

(** ** Sending *)

Lemma bind_ret {A B} (a : A) (k : A -> M B) : bind (ret a) k = k a.
Proof. unfold bind, ret. now destruct (k a). Qed.

Section Sending.

Variable sendMessageToWebviewViaSocket : N -> any -> bool.
Variable JSON_stringify : any -> outcome (option jsstring).

Local Abbreviation send' := (send sendMessageToWebviewViaSocket JSON_stringify).
Local Abbreviation sendMessageToWebviewViaExecute' :=
  (sendMessageToWebviewViaExecute JSON_stringify).

(** The script that carries a serialised message to the webview. *)
Definition wrapped (stringified : jsstring) : jsstring :=
  str "window.__electrobun.receiveMessageFromBun(" ++ stringified ++ str ")".

(** Several sends on one view, one after the other. *)
Fixpoint sends (that : BrowserView) (messages : list any) : M unit :=
  match messages with
  | [] => ret tt
  | message :: messages' =>
      send' that message ;;; sends that messages'
  end.

Lemma sendMessageToWebviewViaExecute_string (s : jsstring) :
  sendMessageToWebviewViaExecute' (JString s) = executeJavascript (wrapped s).
Proof. unfold sendMessageToWebviewViaExecute. now rewrite bind_ret. Qed.

(** The pipe path of [send], taken when the socket did not deliver. *)
Lemma send_pipe_path (that : BrowserView) (message : any) :
  sendMessageToWebviewViaSocket (view_id that) message = false ->
  send' that message
  = match JSON_stringify message with
    | Returned (Some s) =>
        (SendViaSocket (view_id that) message :: JSONStringify message
           :: trace (executeJavascript (wrapped s)),
         Returned tt)
    | Returned None =>
        match JSON_stringify JUndefined with
        | Returned r =>
            (SendViaSocket (view_id that) message :: JSONStringify message
               :: JSONStringify JUndefined
               :: trace (executeJavascript
                           (str "window.__electrobun.receiveMessageFromBun("
                              ++ template_part r ++ str ")")),
             Returned tt)
        | Thrown e =>
            ([SendViaSocket (view_id that) message; JSONStringify message;
              JSONStringify JUndefined;
              ConsoleError (str "bun: failed to serialize message to webview")
                           (ArgError e)],
             Returned tt)
        end
    | Thrown e =>
        ([SendViaSocket (view_id that) message; JSONStringify message;
          ConsoleError (str "bun: failed to serialize message to webview")
                       (ArgError e)],
         Returned tt)
    end.
Proof.
  intros Hsock. unfold send. rewrite Hsock. cbn [negb].
  destruct (JSON_stringify message) as [[s|]|e]; cbn.
  - reflexivity.
  - destruct (JSON_stringify JUndefined) as [r|e]; cbn; reflexivity.
  - reflexivity.
Qed.

Lemma send_socket_path (that : BrowserView) (message : any) :
  sendMessageToWebviewViaSocket (view_id that) message = true ->
  send' that message = ([SendViaSocket (view_id that) message], Returned tt).
Proof. intros Hsock. unfold send. now rewrite Hsock. Qed.

(** No exception leaves [send], whatever the message. *)
Lemma send_returns (that : BrowserView) (message : any) :
  result (send' that message) = Returned tt.
Proof.
  destruct (sendMessageToWebviewViaSocket (view_id that) message) eqn:Hsock.
  - now rewrite send_socket_path.
  - rewrite send_pipe_path by assumption.
    destruct (JSON_stringify message) as [[s|]|e]; [reflexivity| |reflexivity].
    now destruct (JSON_stringify JUndefined).
Qed.

Lemma sends_returns (that : BrowserView) (messages : list any) :
  result (sends that messages) = Returned tt.
Proof.
  induction messages as [|m ms IH]; [reflexivity|].
  simpl. now rewrite result_bind, send_returns.
Qed.

Lemma sends_trace_app (that : BrowserView) (ms1 ms2 : list any) :
  trace (sends that (ms1 ++ ms2))
  = trace (sends that ms1) ++ trace (sends that ms2).
Proof.
  induction ms1 as [|m ms1 IH]; [reflexivity|].
  simpl. rewrite !trace_bind, send_returns, IH. apply app_assoc.
Qed.

(** C4.  [send] first hands the message to the socket path.  When that
    reports success, nothing else happens: no serialisation, no write to
    the pipe.  The pipe path runs exactly when the socket path reports
    failure: [JSON.stringify], then writes of chunks of at most 4096 code
    units that, put end to end, are the wrapped serialised message, then
    the write of the newline. *)
Theorem send_socket_first_then_pipe (that : BrowserView) (message : any) :
  let sentOverSocket := sendMessageToWebviewViaSocket (view_id that) message in
  let t := trace (send' that message) in
  (exists rest, t = SendViaSocket (view_id that) message :: rest)
  /\ (sentOverSocket = true -> t = [SendViaSocket (view_id that) message])
  /\ (In (JSONStringify message) t <-> sentOverSocket = false)
  /\ ((exists chunk, In (InStreamWrite chunk) t) -> sentOverSocket = false)
  /\ (forall s, sentOverSocket = false ->
        JSON_stringify message = Returned (Some s) ->
        concat (pipe_writes t) = wrapped s ++ newline
        /\ exists chunks,
             pipe_writes t = chunks ++ [newline]
             /\ concat chunks = wrapped s
             /\ Forall (fun chunk => 1 <= js_length chunk <= CHUNK_SIZE) chunks).
Proof.
  intros sentOverSocket t. subst t.
  destruct sentOverSocket eqn:Hsock; subst sentOverSocket.
  - rewrite send_socket_path by assumption. cbn [trace fst].
    split; [eauto|]. split; [reflexivity|]. split; [|split].
    + split; [|discriminate]. intros [H|[]]. discriminate.
    + intros [c [H|[]]]. discriminate.
    + discriminate.
  - rewrite send_pipe_path by assumption.
    split; [|split; [discriminate|split; [|split]]].
    + destruct (JSON_stringify message) as [[s|]|e]; [eauto| |eauto].
      destruct (JSON_stringify JUndefined); eauto.
    + split; [reflexivity|]. intros _.
      destruct (JSON_stringify message) as [[s|]|e];
        [right; now left| |right; now left].
      destruct (JSON_stringify JUndefined); right; now left.
    + reflexivity.
    + intros s _ Hs. rewrite Hs. cbn [trace fst].
      change (pipe_writes (?a :: ?b :: ?l)) with (pipe_writes l).
      destruct (executeJavascript_chunks (wrapped s))
        as (chunks & Hw & Hcat & Hsz).
      rewrite Hw. split.
      * rewrite concat_app, Hcat. cbn. reflexivity.
      * exists chunks. auto.
Qed.

(** C5.  When [JSON.stringify] throws on a message, [send] still returns
    to its caller and writes nothing to the pipe; on the pipe path the
    exception is reported with [console.error].  A run of sends that
    contains such a message completes, and puts on the pipe what the other
    sends put there. *)
Theorem send_drops_unserializable (that : BrowserView) (bad : any) (e : exn) :
  JSON_stringify bad = Thrown e ->
  result (send' that bad) = Returned tt
  /\ pipe_writes (trace (send' that bad)) = []
  /\ (sendMessageToWebviewViaSocket (view_id that) bad = false ->
      trace (send' that bad)
      = [SendViaSocket (view_id that) bad; JSONStringify bad;
         ConsoleError (str "bun: failed to serialize message to webview")
                      (ArgError e)])
  /\ (forall before after : list any,
        result (sends that (before ++ bad :: after)) = Returned tt
        /\ pipe_writes (trace (sends that (before ++ bad :: after)))
           = pipe_writes (trace (sends that (before ++ after)))).
Proof.
  intros Hbad.
  assert (Hquiet : pipe_writes (trace (send' that bad)) = []).
  { destruct (sendMessageToWebviewViaSocket (view_id that) bad) eqn:Hsock.
    - now rewrite send_socket_path.
    - rewrite send_pipe_path, Hbad by assumption. reflexivity. }
  split; [apply send_returns|]. split; [exact Hquiet|]. split.
  - intros Hsock. now rewrite send_pipe_path, Hbad by assumption.
  - intros before after. split; [apply sends_returns|].
    rewrite !sends_trace_app, !pipe_writes_app. f_equal.
    simpl sends. rewrite trace_bind, send_returns, pipe_writes_app, Hquiet.
    reflexivity.
Qed.

End Sending.

(** ** Construction *)

Definition with_streams (this : BrowserView) : BrowserView := {|
  view_id := view_id this; hostWebviewId := hostWebviewId this;
  url := url this; html := html this; preload := preload this;
  partition := partition this; autoResize := autoResize this;
  frame := frame this; pipePrefix := pipePrefix this;
  inStream := Some (pipePrefix this ++ str "_in");
  outStream := Some (pipePrefix this ++ str "_out");
  secretKey := secretKey this; rpc := rpc this |}.

Lemma str_inj (s1 s2 : string) : str s1 = str s2 -> s1 = s2.
Proof.
  unfold str. intros H.
  rewrite <- (string_of_list_ascii_of_string s1),
          <- (string_of_list_ascii_of_string s2).
  f_equal. revert H.
  generalize (list_ascii_of_string s1) (list_ascii_of_string s2).
  intros l1. induction l1 as [|a l1 IH]; intros [|b l2] H;
    try discriminate; [reflexivity|].
  simpl in H. injection H as Hab Hl. f_equal; [|now apply IH].
  rewrite <- (ascii_N_embedding a), <- (ascii_N_embedding b). now f_equal.
Qed.

Lemma Number_toString_inj (i j : N) :
  Number_toString i = Number_toString j -> i = j.
Proof.
  unfold Number_toString. intros H. apply str_inj in H.
  apply DecimalN.Unsigned.to_uint_inj.
  assert (Hs : Some (N.to_uint i) = Some (N.to_uint j))
    by now rewrite <- !NilEmpty.usu, H.
  now injection Hs.
Qed.

Section Construction.

Variable hash : jsstring.
Variable randomId : jsstring.
Variable execSync : jsstring -> outcome unit.

Local Abbreviation pipePrefix_of' := (pipePrefix_of hash randomId).
Local Abbreviation createStreams' := (createStreams execSync).
Local Abbreviation new_BrowserView' := (new_BrowserView hash randomId execSync).
Local Abbreviation new_BrowserViews' := (new_BrowserViews hash randomId execSync).

Lemma pipePrefix_of_inj (i j : N) : pipePrefix_of' i = pipePrefix_of' j -> i = j.
Proof.
  unfold pipePrefix_of. intros H.
  repeat apply app_inv_head in H. now apply Number_toString_inj.
Qed.

(** What [createStreams] logs for one [mkfifo]. *)
Definition mkfifo_events (path text : jsstring) : list event :=
  ExecSync (str "mkfifo " ++ path)
    :: match execSync (str "mkfifo " ++ path) with
       | Returned _ => []
       | Thrown _ => [ConsoleLog text]
       end.

Lemma createStreams_runs (this : BrowserView) :
  createStreams' this
  = (mkfifo_events (pipePrefix this ++ str "_out") (str "pipe out already exists")
       ++ mkfifo_events (pipePrefix this ++ str "_in") (str "pipe in already exists")
       ++ [CreateWriteStream (pipePrefix this ++ str "_in");
           InStreamWrite newline;
           OpenReadStream (pipePrefix this ++ str "_out")]
       ++ match rpc this with
          | Some r => [SetTransport r (view_id this)]
          | None => []
          end,
     Returned (with_streams this)).
Proof.
  unfold createStreams, mkfifo_events.
  destruct (execSync (str "mkfifo " ++ pipePrefix this ++ str "_out")) as [[]|e1];
    destruct (execSync (str "mkfifo " ++ pipePrefix this ++ str "_in")) as [[]|e2];
    destruct (rpc this) as [r|] eqn:Hrpc; cbn -[str]; unfold with_streams;
    rewrite ?Hrpc; reflexivity.
Qed.

Lemma new_BrowserView_runs (g : Globals) (key : list N)
    (arg : option BrowserViewOptions) :
  let this := constructor_fields hash randomId (nextWebviewId g) key
                (default defaultOptions arg) in
  new_BrowserView' g key arg
  = (ZigCreateWebview this :: trace (createStreams' this),
     Returned (with_streams this,
               {| nextWebviewId := nextWebviewId g + 1;
                  BrowserViewMap :=
                    <[nextWebviewId g := with_streams this]> (BrowserViewMap g) |})).
Proof.
  intros this. unfold new_BrowserView, init. fold this.
  rewrite createStreams_runs. unfold emit, ret.
  rewrite !bind_returned. cbn [trace result fst snd view_id with_streams].
  now rewrite app_nil_r.
Qed.

(** Whatever [mkfifo] does for either pipe (it succeeds, it fails because
    the path exists, or it fails for any other reason), the constructor
    returns: a failure is caught and logged as "already exists", and
    [createStreams] goes on to its calls of [fs.createWriteStream], of
    [write] with the single newline and of [Bun.file(...).stream()], and
    the view is registered under its id. *)
Lemma createStreams_swallows_every_mkfifo_failure (g : Globals)
    (key : list N) (arg : option BrowserViewOptions) :
  exists t v g',
    new_BrowserView' g key arg = (t, Returned (v, g'))
    /\ BrowserViewMap g' !! view_id v = Some v
    /\ inStream v = Some (pipePrefix v ++ str "_in")
    /\ outStream v = Some (pipePrefix v ++ str "_out")
    /\ pipe_writes t = [newline]
    /\ (forall e, execSync (str "mkfifo " ++ pipePrefix v ++ str "_out") = Thrown e ->
          In (ConsoleLog (str "pipe out already exists")) t)
    /\ (forall e, execSync (str "mkfifo " ++ pipePrefix v ++ str "_in") = Thrown e ->
          In (ConsoleLog (str "pipe in already exists")) t).
Proof.
  eexists _, _, _. split; [apply new_BrowserView_runs|].
  cbn [with_streams view_id inStream outStream pipePrefix constructor_fields
       BrowserViewMap].
  split; [apply lookup_insert_eq|]. split; [reflexivity|]. split; [reflexivity|].
  rewrite createStreams_runs. cbn [trace fst pipePrefix constructor_fields].
  unfold mkfifo_events. split; [|split].
  - destruct (execSync (str "mkfifo " ++ _ ++ str "_out"));
      destruct (execSync (str "mkfifo " ++ _ ++ str "_in"));
      destruct (rpc _); reflexivity.
  - intros e ->. right. rewrite !in_app_iff. left. right. now left.
  - intros e ->. right. rewrite !in_app_iff. right. left. right. now left.
Qed.

(** *** Identifiers and channel prefixes *)

Lemma new_BrowserViews_runs (calls : list (list N * option BrowserViewOptions)) :
  forall g : Globals,
  exists t views g',
    new_BrowserViews' g calls = (t, Returned (views, g'))
    /\ view_id <$> views
       = (fun k => (nextWebviewId g + N.of_nat k)%N) <$> seq 0 (length calls)
    /\ Forall (fun v => pipePrefix v = pipePrefix_of' (view_id v)) views.
Proof.
  induction calls as [|[key arg] calls IH]; intros g.
  - exists [], [], g. repeat split. constructor.
  - cbn [new_BrowserViews]. rewrite new_BrowserView_runs. cbv zeta.
    rewrite bind_returned. cbn [fst snd].
    match goal with
    | |- context [new_BrowserViews' ?g1 calls] =>
        destruct (IH g1) as (t & views & g' & Hrun & Hids & Hpre)
    end.
    rewrite Hrun. cbn [trace result fst snd]. unfold ret.
    rewrite bind_returned. cbn [trace result fst snd].
    eexists _, _, _. split; [reflexivity|]. split.
    + cbn [length seq]. rewrite <- fmap_S_seq, !fmap_cons.
      f_equal; [cbn; lia|].
      rewrite Hids. cbn [nextWebviewId]. rewrite <- list_fmap_compose.
      apply list_fmap_ext. intros _ k _. cbn. lia.
    + constructor; [reflexivity | exact Hpre].
Qed.

(** C9.  Views constructed one after the other in a process that starts
    with [nextWebviewId = 1] get the ids 1, 2, 3, ... in order, so two of
    them never share an id; the channel prefix ends in the id, so two
    different ids never give the same prefix, and two of the views never
    share a prefix. *)
Theorem view_ids_and_prefixes_distinct
    (calls : list (list N * option BrowserViewOptions)) :
  exists t views g',
    new_BrowserViews' initial_globals calls = (t, Returned (views, g'))
    /\ view_id <$> views = N.of_nat <$> seq 1 (length calls)
    /\ (forall i j v w,
          i <> j -> views !! i = Some v -> views !! j = Some w ->
          view_id v <> view_id w /\ pipePrefix v <> pipePrefix w)
    /\ (forall i j : N, i <> j -> pipePrefix_of' i <> pipePrefix_of' j).
Proof.
  destruct (new_BrowserViews_runs calls initial_globals)
    as (t & views & g' & Hrun & Hids & Hpre).
  assert (Hids' : view_id <$> views = N.of_nat <$> seq 1 (length calls)).
  { rewrite Hids, <- fmap_S_seq, <- list_fmap_compose.
    apply list_fmap_ext. intros _ k _. cbn. lia. }
  assert (Hnodup : NoDup (view_id <$> views)).
  { rewrite Hids'. apply NoDup_fmap_2; [apply _ | apply NoDup_seq]. }
  assert (Hinj : forall i j : N, i <> j -> pipePrefix_of' i <> pipePrefix_of' j).
  { intros i j Hne Heq. apply Hne. now apply pipePrefix_of_inj. }
  exists t, views, g'. split; [exact Hrun|]. split; [exact Hids'|].
  split; [|exact Hinj].
  intros i j v w Hne Hv Hw.
  assert (Hid : view_id v <> view_id w).
  { intros Heq. apply Hne.
    apply (NoDup_lookup (view_id <$> views) i j (view_id v)); [exact Hnodup | |].
    - now rewrite list_lookup_fmap, Hv.
    - now rewrite list_lookup_fmap, Hw, Heq. }
  split; [exact Hid|].
  rewrite Forall_forall in Hpre.
  rewrite (Hpre v), (Hpre w).
  - now apply Hinj.
  - eapply list_elem_of_lookup_2. exact Hw.
  - eapply list_elem_of_lookup_2. exact Hv.
Qed.

(** *** Defaults *)

Definition falsy (v : option jsstring) : Prop := v = None \/ v = Some [].

(** C10.  The constructor fills in what the caller left out.  Without an
    argument the view has url "https://electrobun.dev", no html, no
    preload, the frame 0, 0, 800, 600 and [autoResize] true.  With an
    argument, a url, html or preload that is absent or falsy gets the same
    default, a frame that is given overrides the default frame field by
    field, and [autoResize] is false only for the literal [false]. *)
Theorem constructor_defaults (g : Globals) (key : list N)
    (arg : option BrowserViewOptions) :
  exists t v g',
    new_BrowserView' g key arg = (t, Returned (v, g'))
    /\ (arg = None ->
        url v = Some (str "https://electrobun.dev")
        /\ html v = None /\ preload v = None
        /\ frame v = {| frame_x := 0; frame_y := 0;
                        frame_width := 800; frame_height := 600 |}
        /\ autoResize v = true)
    /\ (forall o, arg = Some o ->
        (falsy (opt_url o) -> url v = Some (str "https://electrobun.dev"))
        /\ (forall c s, opt_url o = Some (c :: s) -> url v = Some (c :: s))
        /\ (falsy (opt_html o) -> html v = None)
        /\ (falsy (opt_preload o) -> preload v = None)
        /\ (opt_frame o = None ->
            frame v = {| frame_x := 0; frame_y := 0;
                         frame_width := 800; frame_height := 600 |})
        /\ (forall f, opt_frame o = Some f ->
            frame v = {| frame_x := default 0 (given_x f);
                         frame_y := default 0 (given_y f);
                         frame_width := default 800 (given_width f);
                         frame_height := default 600 (given_height f) |})
        /\ (autoResize v = false <-> opt_autoResize o = JBool false)).
Proof.
  eexists _, _, _. split; [apply new_BrowserView_runs|].
  cbn [with_streams url html preload frame autoResize constructor_fields].
  split.
  - intros ->. repeat split.
  - intros o ->. cbn [default]. unfold id.
    split; [intros [-> | ->]; reflexivity|].
    split; [intros c s ->; reflexivity|].
    split; [intros [-> | ->]; reflexivity|].
    split; [intros [-> | ->]; reflexivity|].
    split; [intros ->; reflexivity|].
    split; [intros f ->; reflexivity|].
    destruct (opt_autoResize o) as [| |[|]| | |]; split; congruence.
Qed.

End Construction.

(** ** Loading *)

(** C7 (amended).  [loadURL] sets the url, tells the zig side, and leaves
    the html as it was; [loadHTML] sets the html, tells the zig side, and
    leaves the url as it was.  Neither clears the other content source. *)
Theorem load_sets_one_source_keeps_other (this : BrowserView) (s : jsstring) :
  (exists this',
     loadURL this s = ([ZigLoadURL (view_id this) s], Returned this')
     /\ url this' = Some s /\ html this' = html this)
  /\ (exists this',
        loadHTML this s = ([ZigLoadHTML (view_id this) s], Returned this')
        /\ html this' = Some s /\ url this' = url this).
Proof. split; eexists; repeat split. Qed.

(** ** Dispatch of inbound messages *)

Section Dispatch.

Variable call_function : nat -> list any -> outcome unit.

Local Abbreviation receive' := (fun config =>
  receive_message (defineRPC call_function config)).

Lemma receive_message_listener (config : RPCConfig)
    (messageHandlers : gmap (list N) nat) (name : jsstring) (payload : any) :
  handlers_messages config = Some messageHandlers ->
  receive' config name payload
  = (trace (message_listener call_function messageHandlers name payload),
     result (message_listener call_function messageHandlers name payload)).
Proof.
  intros Hm. unfold receive_message, defineRPC. cbn. rewrite Hm. cbn.
  destruct (message_listener call_function messageHandlers name payload)
    as [t [[]|e]]; cbn; [|reflexivity].
  now rewrite app_nil_r.
Qed.

(** A function the configuration stores is what the read finds. *)
Lemma property_get_own (messageHandlers : gmap (list N) nat)
    (name : jsstring) (fn : nat) :
  messageHandlers !! name = Some fn ->
  property_get messageHandlers name = Some (OwnFunction fn).
Proof. intros H. unfold property_get. now rewrite H. Qed.

(** Nothing is found for a name that is neither stored nor inherited. *)
Lemma property_get_none (messageHandlers : gmap (list N) nat) (name : jsstring) :
  messageHandlers !! name = None ->
  inherited_name name = false ->
  property_get messageHandlers name = None.
Proof.
  intros H Hin. unfold property_get, inherited_name in *. rewrite H.
  apply orb_false_iff in Hin as [-> ->]. reflexivity.
Qed.

Lemma star_not_inherited : inherited_name (str "*") = false.
Proof. reflexivity. Qed.

(** C8 (amended).  For an inbound message [name] with [payload], the
    listener that [defineRPC] registers calls the function stored under "*"
    with [(name, payload)] and then, once that call has returned, the
    function stored under [name] with [payload]: both, in that order, when
    both are there and the first returns.  For a name that [Object.prototype]
    does not define, only the one that is there is called when the other is
    missing, and nothing is called, with no error, when neither is there.
    Nothing happens either when no message handlers were configured. *)
Theorem message_listener_wildcard_then_specific (config : RPCConfig)
    (name : jsstring) (payload : any) :
  let run := receive' config name payload in
  (handlers_messages config = None -> run = ([], Returned tt))
  /\ (forall messageHandlers,
        handlers_messages config = Some messageHandlers ->
        (forall globalHandler messageHandler,
           messageHandlers !! str "*" = Some globalHandler ->
           messageHandlers !! name = Some messageHandler ->
           call_function globalHandler [JString name; payload] = Returned tt ->
           trace run = [Call globalHandler [JString name; payload];
                        Call messageHandler [payload]]
           /\ result run = call_function messageHandler [payload])
        /\ (forall globalHandler,
              messageHandlers !! str "*" = Some globalHandler ->
              messageHandlers !! name = None ->
              inherited_name name = false ->
              trace run = [Call globalHandler [JString name; payload]]
              /\ result run = call_function globalHandler [JString name; payload])
        /\ (forall messageHandler,
              messageHandlers !! str "*" = None ->
              messageHandlers !! name = Some messageHandler ->
              trace run = [Call messageHandler [payload]]
              /\ result run = call_function messageHandler [payload])
        /\ (messageHandlers !! str "*" = None ->
            messageHandlers !! name = None ->
            inherited_name name = false ->
            run = ([], Returned tt))).
Proof.
  intros run. subst run. split.
  - intros Hnone. unfold receive_message, defineRPC. cbn. now rewrite Hnone.
  - intros mh Hm. rewrite (receive_message_listener _ mh) by assumption.
    unfold message_listener. cbn [trace result fst snd].
    split; [|split; [|split]].
    + intros g h Hg Hh Hret.
      rewrite (property_get_own _ _ _ Hg), (property_get_own _ _ _ Hh).
      unfold apply_member, call. cbn. rewrite Hret. cbn.
      now destruct (call_function h [payload]) as [[]|e].
    + intros g Hg Hn Hin.
      rewrite (property_get_own _ _ _ Hg), (property_get_none _ _ Hn Hin).
      unfold apply_member, call. cbn.
      now destruct (call_function g [JString name; payload]) as [[]|e].
    + intros h Hg Hh.
      rewrite (property_get_none _ _ Hg star_not_inherited),
        (property_get_own _ _ _ Hh).
      unfold apply_member, call. cbn.
      now destruct (call_function h [payload]) as [[]|e].
    + intros Hg Hn Hin.
      rewrite (property_get_none _ _ Hg star_not_inherited),
        (property_get_none _ _ Hn Hin).
      reflexivity.
Qed.

End Dispatch.

(** * A concrete process

    One fixed choice for everything the sections above leave open, to run
    the definitions on. *)

Definition example_hash : jsstring := str "4f2a9c".
Definition example_randomId : jsstring := str "k3x9q".

(** Every [mkfifo] succeeds. *)
Definition example_execSync (command : jsstring) : outcome unit := Returned tt.

(** Every [mkfifo] fails, and not because the path exists. *)
Definition denied_execSync (command : jsstring) : outcome unit :=
  Thrown (ExecError 1 (str "mkfifo: Permission denied")).

(** The socket reaches view 2 only. *)
Definition example_socket (id : N) (message : any) : bool := N.eqb id 2.

(** Objects cannot be serialised (say each holds a cycle or a BigInt);
    numbers print in decimal. *)
Definition example_stringify (v : any) : outcome (option jsstring) :=
  match v with
  | JUndefined => Returned None
  | JNull => Returned (Some (str "null"))
  | JBool true => Returned (Some (str "true"))
  | JBool false => Returned (Some (str "false"))
  | JNumber n => Returned (Some (Number_toString (Z.to_N n)))
  | JString s => Returned (Some ([34%N] ++ s ++ [34%N]))
  | JObject _ => Thrown TypeError
  end.

Definition example_call (fn : nat) (args : list any) : outcome unit := Returned tt.

Definition example_key : list N := repeat 0%N 32.

(** The view a first [new BrowserView()] yields. *)
Definition example_view : BrowserView :=
  with_streams
    (constructor_fields example_hash example_randomId 1 example_key defaultOptions).

Definition example_handlers : gmap (list N) nat :=
  <[str "*" := 0%nat]> (<[str "log" := 1%nat]> ∅).

Definition example_config : RPCConfig :=
  {| maxRequestTime := None; handlers_requests := None;
     handlers_messages := Some example_handlers |}.

Example example_view_constructed :
  result (new_BrowserView example_hash example_randomId example_execSync
            initial_globals example_key None)
  = Returned (example_view,
              {| nextWebviewId := 2;
                 BrowserViewMap := <[1%N := example_view]> ∅ |}).
Proof. now rewrite new_BrowserView_runs. Qed.

Example example_view_prefix :
  pipePrefix example_view = str "/private/tmp/electrobun_ipc_pipe_4f2a9c_k3x9q_1".
Proof. reflexivity. Qed.

Lemma send_socket_first_then_pipe_witness :
  concat (pipe_writes (trace (send example_socket example_stringify
                                example_view (JNumber 7))))
  = str "window.__electrobun.receiveMessageFromBun(7)" ++ newline.
Proof.
  pose proof (send_socket_first_then_pipe example_socket example_stringify
                example_view (JNumber 7)) as H.
  cbv zeta in H. destruct H as (_ & _ & _ & _ & H).
  destruct (H (str "7") eq_refl eq_refl) as [Hcat _]. exact Hcat.
Defined.

Lemma send_drops_unserializable_witness :
  result (send example_socket example_stringify example_view (JObject 0))
  = Returned tt
  /\ pipe_writes (trace (send example_socket example_stringify example_view
                           (JObject 0))) = [].
Proof.
  destruct (send_drops_unserializable example_socket example_stringify
              example_view (JObject 0) TypeError eq_refl) as (H1 & H2 & _).
  split; assumption.
Defined.

(** C6.  The code misses what C6 asks for a failure other than "already
    exists".  With a [mkfifo] that fails with "Permission denied" for both
    pipes, the constructor is not aborted: each failure is caught and
    logged as "... already exists", [createStreams] goes on to call
    [fs.createWriteStream] and [write] for a pipe that was never created,
    and the constructor returns the view, registered under id 1. *)
Theorem mkfifo_permission_denied_is_not_fatal :
  denied_execSync (str "mkfifo " ++ pipePrefix example_view ++ str "_out")
  = Thrown (ExecError 1 (str "mkfifo: Permission denied"))
  /\ result (new_BrowserView example_hash example_randomId denied_execSync
               initial_globals example_key None)
     = Returned (example_view,
                 {| nextWebviewId := 2;
                    BrowserViewMap := <[1%N := example_view]> ∅ |})
  /\ trace (new_BrowserView example_hash example_randomId denied_execSync
              initial_globals example_key None)
     = [ZigCreateWebview
          (constructor_fields example_hash example_randomId 1 example_key
             defaultOptions);
        ExecSync (str "mkfifo " ++ pipePrefix example_view ++ str "_out");
        ConsoleLog (str "pipe out already exists");
        ExecSync (str "mkfifo " ++ pipePrefix example_view ++ str "_in");
        ConsoleLog (str "pipe in already exists");
        CreateWriteStream (pipePrefix example_view ++ str "_in");
        InStreamWrite newline;
        OpenReadStream (pipePrefix example_view ++ str "_out")].
Proof.
  split; [reflexivity|].
  rewrite new_BrowserView_runs, createStreams_runs. split; reflexivity.
Qed.

(** C7, as stated, fails: the view of a plain [new BrowserView()] has the
    default url; after [loadHTML] it has the html and still that url, so
    two content sources are set.  Likewise [loadURL] on a view that holds
    html leaves the html in place. *)
Lemma load_leaves_other_source_set :
  (exists v, result (loadHTML example_view (str "<p>hi</p>")) = Returned v
             /\ html v = Some (str "<p>hi</p>")
             /\ url v = Some (str "https://electrobun.dev"))
  /\ (exists v w,
        result (loadHTML example_view (str "<p>hi</p>")) = Returned v
        /\ result (loadURL v (str "https://example.org")) = Returned w
        /\ url w = Some (str "https://example.org")
        /\ html w = Some (str "<p>hi</p>")
        /\ html w <> None).
Proof.
  split.
  - eexists. repeat split.
  - eexists _, _. repeat split. discriminate.
Qed.

Lemma message_listener_wildcard_then_specific_witness :
  trace (receive_message (defineRPC example_call example_config)
           (str "log") (JString (str "hello")))
  = [Call 0 [JString (str "log"); JString (str "hello")];
     Call 1 [JString (str "hello")]].
Proof.
  pose proof (message_listener_wildcard_then_specific example_call
                example_config (str "log") (JString (str "hello"))) as H.
  cbv zeta in H. destruct H as (_ & H).
  destruct (H example_handlers eq_refl) as (Hboth & _).
  apply (Hboth 0%nat 1%nat); reflexivity.
Defined.

Lemma view_ids_and_prefixes_distinct_witness :
  pipePrefix_of example_hash example_randomId 1
  <> pipePrefix_of example_hash example_randomId 2.
Proof.
  destruct (view_ids_and_prefixes_distinct example_hash example_randomId
              example_execSync []) as (_ & _ & _ & _ & _ & _ & Hinj).
  apply Hinj. discriminate.
Defined.

Lemma constructor_defaults_witness :
  exists t v g',
    new_BrowserView example_hash example_randomId example_execSync
      initial_globals example_key None = (t, Returned (v, g'))
    /\ url v = Some (str "https://electrobun.dev")
    /\ html v = None /\ preload v = None
    /\ frame v = {| frame_x := 0; frame_y := 0;
                    frame_width := 800; frame_height := 600 |}
    /\ autoResize v = true.
Proof.
  destruct (constructor_defaults example_hash example_randomId example_execSync
              initial_globals example_key None)
    as (t & v & g' & Hrun & Hnone & _).
  exists t, v, g'. split; [exact Hrun|]. apply Hnone. reflexivity.
Defined.

(** A parser that knows two texts, and a stream that carries a blank line
    and a malformed line, cut in the middle of the latter. *)
Definition example_parse (text : jsstring) : outcome any :=
  if decide (text = str "{}") then Returned (JObject 0)
  else if decide (text = str "1") then Returned (JNumber 1)
  else Thrown SyntaxError.

Definition example_handler (message : any) : outcome unit := Returned tt.

Example readFromPipe_example :
  trace (readFromPipe example_parse (fun bytes => bytes) example_handler
           [str " {}" ++ newline ++ str "  " ++ newline ++ str "no";
            str "pe" ++ newline ++ str "1" ++ newline ++ str "{}"])
  = [JSONParse (str "{}"); HandlerCall (JObject 0);
     JSONParse (str "nope"); ConsoleError (str "webview: ") (ArgString (str "nope"));
     JSONParse (str "1"); HandlerCall (JNumber 1)].
Proof. vm_compute. reflexivity. Qed.

Example executeJavascript_example :
  map (@length N)
      (pipe_writes (trace (executeJavascript (repeat 97%N (Z.to_nat 4097)))))
  = [Z.to_nat 4096; 1%nat; 1%nat].
Proof. vm_compute. reflexivity. Qed.

Example send_example :
  trace (send example_socket example_stringify example_view JNull)
  = [SendViaSocket 1 JNull; JSONStringify JNull;
     InStreamWrite (str "window.__electrobun.receiveMessageFromBun(null)");
     InStreamWrite newline].
Proof. vm_compute. reflexivity. Qed.

(** * Further properties of the framing *)

Lemma executeJavascript_loop_count (js : jsstring) (offset : Z) :
  0 <= offset ->
  Z.of_nat (length (executeJavascript_loop js offset))
  = (Z.max 0 (js_length js - offset) + (CHUNK_SIZE - 1)) / CHUNK_SIZE.
Proof.
  funelim (executeJavascript_loop js offset); intros Ho.
  - cbn [length]. rewrite Nat2Z.inj_succ, H by (unfold CHUNK_SIZE; lia).
    unfold CHUNK_SIZE in *. Z.to_euclidean_division_equations. lia.
  - cbn [length]. unfold CHUNK_SIZE in *.
    rewrite Z.max_l by lia. reflexivity.
Qed.

(** X1.  Put end to end, the writes of [executeJavascript] are the string
    followed by one newline; there are ceil(length / 4096) chunk writes and
    one newline write. *)
Theorem executeJavascript_writes_spell_js (js : jsstring) :
  concat (pipe_writes (trace (executeJavascript js))) = js ++ newline
  /\ Z.of_nat (length (pipe_writes (trace (executeJavascript js))))
     = (js_length js + 4095) / 4096 + 1.
Proof.
  rewrite executeJavascript_writes. split.
  - rewrite concat_app, executeJavascript_loop_concat by lia.
    reflexivity.
  - rewrite length_app, Nat2Z.inj_add, executeJavascript_loop_count by lia.
    pose proof (js_length_nonneg js). unfold CHUNK_SIZE.
    rewrite Z.max_r by lia. cbn [length]. do 2 f_equal. lia.
Qed.

(** The encoder never emits more than three bytes per code unit. *)
Lemma utf8_of_code_point_length (cp : N) :
  (cp < 0x10000)%N -> (length (utf8_of_code_point cp) <= 3)%nat.
Proof.
  intros Hcp. unfold utf8_of_code_point.
  destruct (N.ltb_spec cp 0x80); [cbn; lia|].
  destruct (N.ltb_spec cp 0x800); [cbn; lia|].
  destruct (N.ltb_spec cp 0x10000); [cbn; lia | lia].
Qed.

Lemma utf8_encode_length_bound (n : nat) :
  forall s : jsstring,
  (length s <= n)%nat ->
  Forall (fun c => (c < 0x10000)%N) s ->
  (length (utf8_encode s) <= 3 * length s)%nat.
Proof.
  induction n as [|n IH]; intros s Hn Hs.
  - destruct s; [cbn; lia | cbn in Hn; lia].
  - destruct s as [|c rest]; [cbn; lia|].
    inversion Hs as [|? ? Hc Hrest]; subst. cbn [length] in Hn.
    assert (Hrec : (length (utf8_encode rest) <= 3 * length rest)%nat)
      by (apply IH; [lia | assumption]).
    cbn [utf8_encode].
    destruct (is_high_surrogate c).
    + destruct rest as [|d rest']; [cbn; lia|].
      destruct (is_low_surrogate d).
      * inversion Hrest as [|? ? Hd Hrest']; subst.
        assert (Hrec' : (length (utf8_encode rest') <= 3 * length rest')%nat)
          by (apply IH; [cbn [length] in Hn; lia | assumption]).
        rewrite length_app. cbn [length].
        assert (length (utf8_of_code_point (code_point_of_pair c d)) <= 4)%nat.
        { unfold utf8_of_code_point.
          repeat match goal with
                 | |- context [if ?b then _ else _] => destruct b
                 end; cbn; lia. }
        lia.
      * rewrite length_app. cbn [length replacement_character] in *. lia.
    + destruct (is_low_surrogate c).
      * rewrite length_app. cbn [length replacement_character]. lia.
      * rewrite length_app. pose proof (utf8_of_code_point_length c Hc).
        cbn [length]. lia.
Qed.

(** X2.  Whatever the text, no single write of [executeJavascript] exceeds
    12288 bytes (three bytes for each of at most 4096 code units). *)
Theorem executeJavascript_write_at_most_12288_bytes (js : jsstring) :
  Forall (fun c => (c < 0x10000)%N) js ->
  Forall (fun chunk => Z.of_nat (length (bytes_written chunk)) <= 12288)
         (pipe_writes (trace (executeJavascript js))).
Proof.
  intros Hjs.
  destruct (executeJavascript_chunks js) as (chunks & -> & Hcat & Hsz).
  apply Forall_app. split; [|repeat constructor; cbn; lia].
  subst js. induction Hsz as [|c cs Hc _ IH]; [constructor|].
  cbn [concat] in Hjs. apply Forall_app in Hjs as [Hc' Hcs].
  constructor; [|auto].
  pose proof (utf8_encode_length_bound (length c) c (le_n _) Hc').
  unfold bytes_written, js_length, CHUNK_SIZE in *. lia.
Qed.

Lemma executeJavascript_write_at_most_12288_bytes_witness :
  Forall (fun chunk => Z.of_nat (length (bytes_written chunk)) <= 12288)
         (pipe_writes (trace (executeJavascript (str "caf" ++ [0xE9; 0x20AC]%N)))).
Proof.
  apply executeJavascript_write_at_most_12288_bytes.
  repeat constructor.
Defined.

Lemma utf8_encode_app (a b : jsstring) :
  Forall (fun c => is_high_surrogate c = false) a ->
  utf8_encode (a ++ b) = utf8_encode a ++ utf8_encode b.
Proof.
  induction 1 as [|c a Hc _ IH]; [reflexivity|].
  cbn [app utf8_encode]. rewrite Hc, IH.
  destruct (is_low_surrogate c); now rewrite app_assoc.
Qed.

(** X3.  When the text holds no high surrogate (all of it lies in the Basic
    Multilingual Plane), the bytes that reach the pipe are the UTF-8 bytes
    of the text followed by the byte 0x0A, wherever the cuts fall. *)
Theorem executeJavascript_bmp_bytes_preserved (js : jsstring) :
  Forall (fun c => is_high_surrogate c = false) js ->
  concat (map bytes_written (pipe_writes (trace (executeJavascript js))))
  = bytes_written js ++ [10%N].
Proof.
  intros Hjs.
  destruct (executeJavascript_chunks js) as (chunks & -> & Hcat & _).
  rewrite map_app, concat_app. cbn [map concat bytes_written utf8_encode].
  f_equal. subst js. unfold bytes_written.
  induction chunks as [|c cs IH]; [reflexivity|].
  cbn [concat map] in *. apply Forall_app in Hjs as [Hc Hcs].
  now rewrite utf8_encode_app, IH.
Qed.

Lemma executeJavascript_bmp_bytes_preserved_witness :
  concat (map bytes_written
            (pipe_writes (trace (executeJavascript (repeat 0x20AC%N (Z.to_nat 5000))))))
  = bytes_written (repeat 0x20AC%N (Z.to_nat 5000)) ++ [10%N].
Proof.
  apply executeJavascript_bmp_bytes_preserved.
  apply Forall_forall. intros c Hc.
  apply list_elem_of_In, repeat_spec in Hc. now subst c.
Defined.

Lemma utf8_of_code_point_newline (cp : N) :
  In 10%N (utf8_of_code_point cp) -> cp = 10%N.
Proof.
  unfold utf8_of_code_point.
  destruct (N.ltb_spec cp 0x80); [|destruct (N.ltb_spec cp 0x800);
    [|destruct (N.ltb_spec cp 0x10000)]]; cbn [In]; intros Hin;
    repeat (destruct Hin as [Hin|Hin];
            [zify; Z.to_euclidean_division_equations; lia|]);
    destruct Hin.
Qed.

(** The byte 0x0A occurs in the encoding only where the text has a
    newline. *)
Lemma utf8_encode_no_newline (s : jsstring) :
  Forall (fun c => is_high_surrogate c = false) s ->
  ~ In 10%N s -> ~ In 10%N (utf8_encode s).
Proof.
  induction 1 as [|c s Hc _ IH]; intros Hnl; [cbn; tauto|].
  cbn [utf8_encode]. rewrite Hc.
  assert (Hs : ~ In 10%N (utf8_encode s)) by (apply IH; intros H; apply Hnl; now right).
  destruct (is_low_surrogate c); rewrite in_app_iff; intros [H|H]; try tauto.
  - cbn in H. repeat (destruct H as [H|H]; [discriminate H|]). exact H.
  - apply utf8_of_code_point_newline in H. apply Hnl. now left.
Qed.

Lemma executeJavascript_bytes_on_pipe (js : jsstring) :
  Forall (fun c => is_high_surrogate c = false) js ->
  concat (map bytes_written (pipe_writes (trace (executeJavascript js))))
  = bytes_written js ++ [10%N].
Proof.
  intros Hjs.
  destruct (executeJavascript_chunks js) as (chunks & -> & Hcat & _).
  rewrite map_app, concat_app. cbn [map concat bytes_written utf8_encode].
  f_equal. subst js. unfold bytes_written.
  induction chunks as [|c cs IH]; [reflexivity|].
  cbn [concat map] in *. apply Forall_app in Hjs as [Hc Hcs].
  now rewrite utf8_encode_app, IH.
Qed.

(** X4.  A script with no newline and no high surrogate in it reaches the
    pipe as exactly one complete line: the bytes written are the UTF-8
    bytes of the script, then the terminator, and nothing after it. *)
Theorem executeJavascript_frames_one_line (js : jsstring) :
  ~ In 10%N js ->
  Forall (fun c => is_high_surrogate c = false) js ->
  split_lines
    (concat (map bytes_written (pipe_writes (trace (executeJavascript js)))))
  = ([bytes_written js], []).
Proof.
  intros Hnl Hbmp.
  rewrite executeJavascript_bytes_on_pipe by assumption.
  rewrite split_lines_first by now apply utf8_encode_no_newline.
  reflexivity.
Qed.

Lemma executeJavascript_frames_one_line_witness :
  split_lines
    (concat (map bytes_written
               (pipe_writes (trace (executeJavascript
                                      (str "document.title=" ++ [0xE9; 0x20AC]%N))))))
  = ([bytes_written (str "document.title=" ++ [0xE9; 0x20AC]%N)], []).
Proof.
  apply executeJavascript_frames_one_line.
  - cbn. intros H. repeat (destruct H as [H|H]; [discriminate H|]). exact H.
  - repeat constructor.
Defined.

(** * Further properties of sending *)

Lemma wrapped_no_newline (s : jsstring) : ~ In 10%N s -> ~ In 10%N (wrapped s).
Proof.
  intros Hs. unfold wrapped. rewrite !in_app_iff. intros [H | [H | H]].
  - cbn in H. repeat (destruct H as [H|H]; [discriminate H|]). exact H.
  - now apply Hs.
  - cbn in H. repeat (destruct H as [H|H]; [discriminate H|]). exact H.
Qed.

Lemma wrapped_no_high_surrogate (s : jsstring) :
  Forall (fun c => is_high_surrogate c = false) s ->
  Forall (fun c => is_high_surrogate c = false) (wrapped s).
Proof.
  intros Hs. unfold wrapped. rewrite !Forall_app.
  repeat split; [|exact Hs|]; repeat constructor.
Qed.

Section SendingFurther.

Variable sendMessageToWebviewViaSocket : N -> any -> bool.
Variable JSON_stringify : any -> outcome (option jsstring).

Local Abbreviation send'' := (send sendMessageToWebviewViaSocket JSON_stringify).
Local Abbreviation sends'' := (sends sendMessageToWebviewViaSocket JSON_stringify).
Local Abbreviation execute'' := (sendMessageToWebviewViaExecute JSON_stringify).

(** X5.  [sendMessageToWebviewViaExecute] has no handler of its own: given
    a value that is not a string and that [JSON.stringify] rejects, it
    throws that exception to its caller and writes nothing to the pipe.  A
    string is taken as already serialised and sent without a call to
    [JSON.stringify]. *)
Theorem sendMessageToWebviewViaExecute_throws_on_unserializable
    (jsonMessage : any) (e : exn) :
  (forall s, jsonMessage <> JString s) ->
  JSON_stringify jsonMessage = Thrown e ->
  execute'' jsonMessage = ([JSONStringify jsonMessage], Thrown e)
  /\ (forall s, execute'' (JString s) = executeJavascript (wrapped s)).
Proof.
  intros Hns He. split.
  - unfold sendMessageToWebviewViaExecute.
    destruct jsonMessage; try (cbn; rewrite He; reflexivity).
    now contradiction (Hns s).
  - intros s. apply sendMessageToWebviewViaExecute_string.
Qed.

(** X6.  When [JSON.stringify] returns [undefined] for the message (as it
    does for [undefined] itself or for a function), [send] neither drops the
    message nor logs: the pipe receives the script that calls the receiver
    with [undefined]. *)
Theorem send_undefined_serialization (that : BrowserView) (message : any) :
  sendMessageToWebviewViaSocket (view_id that) message = false ->
  JSON_stringify message = Returned None ->
  JSON_stringify JUndefined = Returned None ->
  concat (pipe_writes (trace (send'' that message)))
  = str "window.__electrobun.receiveMessageFromBun(undefined)" ++ newline
  /\ (forall text arg, ~ In (ConsoleError text arg) (trace (send'' that message)))
  /\ result (send'' that message) = Returned tt.
Proof.
  intros Hsock Hm Hu. rewrite send_pipe_path, Hm, Hu by assumption.
  cbn [trace result fst snd template_part]. split; [|split; [|reflexivity]].
  - change (pipe_writes (?a :: ?b :: ?c :: ?l)) with (pipe_writes l).
    now destruct (executeJavascript_writes_spell_js
                    (str "window.__electrobun.receiveMessageFromBun(undefined)")).
  - intros text arg [H | [H | [H | H]]]; try discriminate H.
    unfold executeJavascript in H. rewrite trace_bind in H.
    cbn [result snd trace fst emit] in H.
    apply in_app_iff in H as [H | [H | []]]; [|discriminate H].
    apply in_map_iff in H as (c & Hc & _). discriminate Hc.
Qed.

(** X7.  Messages sent one after the other over the pipe path, each of
    which serialises to a text with no raw newline and no high surrogate,
    reach the pipe as one complete line per message, in the order sent: the
    bytes of each line are the UTF-8 bytes of the receiver call wrapped
    around the serialised text. *)
Theorem sends_frame_one_line_per_message (that : BrowserView)
    (messages : list any) (texts : list jsstring) :
  Forall2 (fun message text =>
             sendMessageToWebviewViaSocket (view_id that) message = false
             /\ JSON_stringify message = Returned (Some text)
             /\ ~ In 10%N text
             /\ Forall (fun c => is_high_surrogate c = false) text)
          messages texts ->
  split_lines
    (concat (map bytes_written (pipe_writes (trace (sends'' that messages)))))
  = ((fun text => bytes_written (wrapped text)) <$> texts, []).
Proof.
  induction 1 as [|message text messages texts (Hsock & Hs & Hnl & Hbmp) _ IH];
    [reflexivity|].
  cbn [sends]. rewrite trace_bind, send_returns, pipe_writes_app, map_app,
    concat_app.
  rewrite send_pipe_path, Hs by assumption. cbn [trace fst].
  change (pipe_writes (?a :: ?b :: ?l)) with (pipe_writes l).
  rewrite executeJavascript_bytes_on_pipe by now apply wrapped_no_high_surrogate.
  rewrite <- app_assoc. cbn [app].
  rewrite split_lines_first
    by (apply utf8_encode_no_newline;
        [now apply wrapped_no_high_surrogate | now apply wrapped_no_newline]).
  unfold complete_lines, unterminated. rewrite IH. reflexivity.
Qed.

End SendingFurther.

Lemma sendMessageToWebviewViaExecute_throws_on_unserializable_witness :
  sendMessageToWebviewViaExecute example_stringify (JObject 3)
  = ([JSONStringify (JObject 3)], Thrown TypeError).
Proof.
  apply (sendMessageToWebviewViaExecute_throws_on_unserializable
           example_stringify (JObject 3) TypeError).
  - discriminate.
  - reflexivity.
Defined.

Lemma send_undefined_serialization_witness :
  concat (pipe_writes (trace (send example_socket example_stringify
                                example_view JUndefined)))
  = str "window.__electrobun.receiveMessageFromBun(undefined)" ++ newline.
Proof.
  apply (send_undefined_serialization example_socket example_stringify
           example_view JUndefined); reflexivity.
Defined.

Lemma sends_frame_one_line_per_message_witness :
  split_lines
    (concat (map bytes_written
               (pipe_writes (trace (sends example_socket example_stringify
                                      example_view [JNull; JBool true])))))
  = ([bytes_written (wrapped (str "null")); bytes_written (wrapped (str "true"))],
     []).
Proof.
  apply (sends_frame_one_line_per_message example_socket example_stringify
           example_view [JNull; JBool true] [str "null"; str "true"]).
  repeat constructor; cbn; intros H;
    repeat (destruct H as [H|H]; [discriminate H|]); exact H.
Defined.

(** * Further properties of the decode loop *)

Lemma complete_lines_ignore_tail (text tail : jsstring) :
  ~ In 10%N tail -> complete_lines (text ++ tail) = complete_lines text.
Proof.
  intros Htail. unfold complete_lines at 1. rewrite split_lines_app. cbn [fst].
  assert (Hrest : ~ In 10%N (unterminated text ++ tail)).
  { rewrite in_app_iff. intros [H|H]; [|tauto].
    now apply (unterminated_no_newline text). }
  unfold complete_lines at 2. rewrite (split_lines_no_newline _ Hrest).
  cbn [fst]. apply app_nil_r.
Qed.

Section DecodeLoopFurther.

Variable JSON_parse : jsstring -> outcome any.
Variable TextDecoder_decode : list N -> jsstring.
Variable handler : any -> outcome unit.

(** X8.  What the loop does depends on the decoded text only, not on how
    the stream was cut into reads: two runs whose reads decode to the same
    text parse, deliver and report the same things in the same order. *)
Theorem readFromPipe_independent_of_read_boundaries
    (reads1 reads2 : list (list N)) :
  concat (map TextDecoder_decode reads1) = concat (map TextDecoder_decode reads2) ->
  readFromPipe JSON_parse TextDecoder_decode handler reads1
  = readFromPipe JSON_parse TextDecoder_decode handler reads2.
Proof.
  intros Htext. unfold readFromPipe.
  rewrite !readFromPipe_loop_spec by (cbn; tauto).
  cbn [app]. now rewrite Htext.
Qed.

(** X9.  Text that follows the last newline is never parsed, delivered or
    reported: when the stream ends, a final read without a newline changes
    nothing, so a message that arrives without its terminator is lost
    silently. *)
Theorem readFromPipe_drops_unterminated_tail
    (reads : list (list N)) (last_read : list N) :
  ~ In 10%N (TextDecoder_decode last_read) ->
  readFromPipe JSON_parse TextDecoder_decode handler (reads ++ [last_read])
  = readFromPipe JSON_parse TextDecoder_decode handler reads.
Proof.
  intros Htail. unfold readFromPipe.
  rewrite !readFromPipe_loop_spec by (cbn; tauto).
  cbn [app]. rewrite map_app, concat_app. cbn [map concat].
  rewrite app_nil_r. now rewrite complete_lines_ignore_tail.
Qed.

End DecodeLoopFurther.

Lemma readFromPipe_independent_of_read_boundaries_witness :
  readFromPipe example_parse (fun bytes => bytes) example_handler
    [str "{}" ++ newline ++ str "1" ++ newline]
  = readFromPipe example_parse (fun bytes => bytes) example_handler
      [str "{"; str "}" ++ newline; str "1"; newline].
Proof.
  apply readFromPipe_independent_of_read_boundaries. reflexivity.
Defined.

Lemma readFromPipe_drops_unterminated_tail_witness :
  readFromPipe example_parse (fun bytes => bytes) example_handler
    ([str "1" ++ newline] ++ [str "{}"])
  = readFromPipe example_parse (fun bytes => bytes) example_handler
      [str "1" ++ newline].
Proof.
  apply readFromPipe_drops_unterminated_tail.
  cbn. intros H. repeat (destruct H as [H|H]; [discriminate H|]). exact H.
Defined.

(** * The registry of views *)

(** [BrowserView.getById(id)]: [None] is [undefined]. *)
Definition getById (g : Globals) (id : N) : option BrowserView :=
  BrowserViewMap g !! id.

(** The order of [Object.values] on an object whose keys are integers:
    ascending keys. *)
Definition key_le (p q : N * BrowserView) : Prop := (p.1 <= q.1)%N.

#[local] Instance key_le_dec (p q : N * BrowserView) : Decision (key_le p q).
Proof. unfold key_le. apply _. Defined.

(** [BrowserView.getAll()] *)
Definition getAll (g : Globals) : list BrowserView :=
  (merge_sort key_le (map_to_list (BrowserViewMap g))).*2.

Definition keyed (views : list BrowserView) : list (N * BrowserView) :=
  (fun v => (view_id v, v)) <$> views.

Lemma keyed_fst (views : list BrowserView) : (keyed views).*1 = view_id <$> views.
Proof. unfold keyed. rewrite <- list_fmap_compose. reflexivity. Qed.

Lemma keyed_snd (views : list BrowserView) : (keyed views).*2 = views.
Proof.
  unfold keyed. rewrite <- list_fmap_compose. apply list_fmap_id.
Qed.

Lemma keyed_sorted (views : list BrowserView) :
  forall (start : N) (n : nat),
  view_id <$> views = (fun k => (start + N.of_nat k)%N) <$> seq 0 n ->
  Sorted key_le (keyed views).
Proof.
  induction views as [|v views IH]; intros start n Hids; [constructor|].
  destruct n as [|n]; [discriminate Hids|].
  cbn [seq] in Hids. rewrite <- fmap_S_seq, !fmap_cons in Hids.
  injection Hids as Hv Hrest. rewrite <- list_fmap_compose in Hrest.
  assert (Hrest' : view_id <$> views
                   = (fun k => (start + 1 + N.of_nat k)%N) <$> seq 0 n).
  { rewrite Hrest. apply list_fmap_ext. intros _ k _. cbn. lia. }
  cbn. constructor; [apply (IH (start + 1)%N n Hrest')|].
  destruct views as [|w views]; [constructor|].
  destruct n as [|n']; [discriminate Hrest'|].
  cbn [seq] in Hrest'. rewrite !fmap_cons in Hrest'.
  injection Hrest' as Hw _. constructor. unfold key_le. cbn. lia.
Qed.

Section Registry.

Variable hash : jsstring.
Variable randomId : jsstring.
Variable execSync : jsstring -> outcome unit.

Local Abbreviation new_BrowserViews'' := (new_BrowserViews hash randomId execSync).

Lemma new_BrowserViews_registry (calls : list (list N * option BrowserViewOptions)) :
  forall g : Globals,
  exists t views g',
    new_BrowserViews'' g calls = (t, Returned (views, g'))
    /\ view_id <$> views
       = (fun k => (nextWebviewId g + N.of_nat k)%N) <$> seq 0 (length calls)
    /\ BrowserViewMap g' = list_to_map (keyed views) ∪ BrowserViewMap g
    /\ nextWebviewId g' = (nextWebviewId g + N.of_nat (length calls))%N.
Proof.
  induction calls as [|[key arg] calls IH]; intros g.
  - exists [], [], g. cbn. repeat split.
    + now rewrite (left_id_L ∅ (∪)).
    + lia.
  - cbn [new_BrowserViews]. rewrite new_BrowserView_runs. cbv zeta.
    rewrite bind_returned. cbn [fst snd].
    match goal with
    | |- context [new_BrowserViews'' ?g1 calls] =>
        destruct (IH g1) as (t & views & g' & Hrun & Hids & Hmap & Hnext)
    end.
    rewrite Hrun. cbn [trace result fst snd]. unfold ret.
    rewrite bind_returned. cbn [trace result fst snd].
    cbn [nextWebviewId BrowserViewMap] in *.
    eexists _, _, _. split; [reflexivity|]. split; [|split].
    + cbn [length seq]. rewrite <- fmap_S_seq, !fmap_cons.
      f_equal; [cbn; lia|].
      rewrite Hids, <- list_fmap_compose.
      apply list_fmap_ext. intros _ k _. cbn. lia.
    + rewrite Hmap. cbn [keyed fmap list_fmap list_to_map view_id with_streams
                         constructor_fields].
      fold (keyed views).
      rewrite list_to_map_cons, <- insert_union_l. symmetry.
      apply insert_union_r.
      apply not_elem_of_list_to_map_1. rewrite keyed_fst, Hids.
      intros Hin. apply list_elem_of_fmap in Hin as (k & Hk & _). lia.
    + rewrite Hnext. cbn [length]. lia.
Qed.

(** X10.  After any run of constructions in a fresh process, [getById]
    returns the k-th constructed view for the id k (counting from 1), and
    [undefined] for 0 and for every id not yet assigned. *)
Theorem getById_finds_exactly_the_constructed_views
    (calls : list (list N * option BrowserViewOptions)) :
  exists t views g',
    new_BrowserViews'' initial_globals calls = (t, Returned (views, g'))
    /\ length views = length calls
    /\ (forall k v, views !! k = Some v -> getById g' (N.of_nat (S k)) = Some v)
    /\ (forall id, (id = 0 \/ N.of_nat (length calls) < id)%N ->
          getById g' id = None).
Proof.
  destruct (new_BrowserViews_registry calls initial_globals)
    as (t & views & g' & Hrun & Hids & Hmap & _).
  cbn [initial_globals nextWebviewId BrowserViewMap] in *.
  rewrite (right_id_L ∅ (∪)) in Hmap.
  assert (Hlen : length views = length calls).
  { apply (f_equal length) in Hids.
    now rewrite !length_fmap, length_seq in Hids. }
  assert (Hnodup : NoDup (keyed views).*1).
  { rewrite keyed_fst, Hids.
    apply NoDup_fmap_2; [|apply NoDup_seq].
    intros a b Hab. lia. }
  exists t, views, g'. split; [exact Hrun|]. split; [exact Hlen|].
  unfold getById. rewrite Hmap. split.
  - intros k v Hv.
    assert (Hid : view_id v = N.of_nat (S k)).
    { assert (Hk : (view_id <$> views) !! k = Some (view_id v))
        by now rewrite list_lookup_fmap, Hv.
      rewrite Hids, list_lookup_fmap in Hk.
      destruct (seq 0 (length calls) !! k) as [k'|] eqn:Hseq; [|discriminate Hk].
      apply lookup_seq in Hseq as [-> _]. cbn in Hk. injection Hk as Hk. lia. }
    apply elem_of_list_to_map_1; [exact Hnodup|].
    rewrite <- Hid. unfold keyed.
    apply list_elem_of_fmap. exists v. split; [reflexivity|].
    eapply list_elem_of_lookup_2. exact Hv.
  - intros id Hid. apply not_elem_of_list_to_map_1.
    rewrite keyed_fst, Hids. intros Hin.
    apply list_elem_of_fmap in Hin as (k & -> & Hk).
    apply elem_of_seq in Hk. lia.
Qed.

(** X11.  After any run of constructions in a fresh process, [getAll]
    lists exactly the constructed views, each once, in the order of
    construction. *)
Theorem getAll_lists_views_in_construction_order
    (calls : list (list N * option BrowserViewOptions)) :
  exists t views g',
    new_BrowserViews'' initial_globals calls = (t, Returned (views, g'))
    /\ getAll g' = views.
Proof.
  destruct (new_BrowserViews_registry calls initial_globals)
    as (t & views & g' & Hrun & Hids & Hmap & _).
  cbn [initial_globals nextWebviewId BrowserViewMap] in *.
  rewrite (right_id_L ∅ (∪)) in Hmap.
  assert (Hnodup : NoDup (keyed views).*1).
  { rewrite keyed_fst, Hids.
    apply NoDup_fmap_2; [|apply NoDup_seq].
    intros a b Hab. lia. }
  exists t, views, g'. split; [exact Hrun|].
  unfold getAll. rewrite Hmap.
  assert (Hperm : merge_sort key_le (map_to_list (list_to_map (keyed views)
                                                   : gmap N BrowserView))
                  ≡ₚ keyed views).
  { rewrite merge_sort_Permutation. now apply map_to_list_to_map. }
  assert (Htotal : Total key_le) by (intros p q; unfold key_le; lia).
  assert (Htrans : Transitive key_le) by (intros p q r; unfold key_le; lia).
  rewrite (Sorted_unique_strong key_le _ (keyed views)).
  - apply keyed_snd.
  - intros [k1 v1] [k2 v2] H1 H2 Hle1 Hle2. unfold key_le in *. cbn in *.
    assert (k1 = k2) by lia. subst k2. f_equal.
    rewrite Hperm in H1.
    apply (elem_of_list_to_map_1 (M := gmap N)) in H1, H2; try assumption.
    congruence.
  - now apply Sorted_merge_sort.
  - exact (keyed_sorted views 1%N (length calls) Hids).
  - exact Hperm.
Qed.

End Registry.

Lemma getById_finds_exactly_the_constructed_views_witness :
  exists t views g',
    new_BrowserViews example_hash example_randomId example_execSync
      initial_globals [(example_key, None); (example_key, None)]
    = (t, Returned (views, g'))
    /\ getById g' 0 = None /\ getById g' 3 = None.
Proof.
  destruct (getById_finds_exactly_the_constructed_views example_hash
              example_randomId example_execSync
              [(example_key, None); (example_key, None)])
    as (t & views & g' & Hrun & _ & _ & Hmiss).
  exists t, views, g'. split; [exact Hrun|]. split; apply Hmiss.
  - left. reflexivity.
  - right. reflexivity.
Defined.

(** * Event subscription *)

(** The names [on] accepts. *)
Inductive NavigationEvent : Type :=
| will_navigate
| did_navigate
| did_navigate_in_page
| did_commit_navigation
| dom_ready.

Definition event_name (name : NavigationEvent) : jsstring :=
  match name with
  | will_navigate => str "will-navigate"
  | did_navigate => str "did-navigate"
  | did_navigate_in_page => str "did-navigate-in-page"
  | did_commit_navigation => str "did-commit-navigation"
  | dom_ready => str "dom-ready"
  end.

(** [`${name}-${this.id}`] *)
Definition specificName (name : NavigationEvent) (id : N) : jsstring :=
  event_name name ++ str "-" ++ Number_toString id.

(** [on(name, handler)]: the arguments it passes to
    [electrobunEventEmitter.on]. *)
Definition on (this : BrowserView) (name : NavigationEvent) (handler : nat)
    : jsstring * nat :=
  (specificName name (view_id this), handler).

Lemma Number_toString_head (n : N) :
  match Number_toString n with
  | [] => True
  | c :: _ => (48 <= c <= 57)%N
  end.
Proof.
  unfold Number_toString. destruct (N.to_uint n); cbn; lia.
Qed.

Lemma specificName_inj (n1 n2 : NavigationEvent) (i j : N) :
  specificName n1 i = specificName n2 j -> n1 = n2 /\ i = j.
Proof.
  intros H. unfold specificName in H.
  pose proof (Number_toString_head i) as Hi.
  pose proof (Number_toString_head j) as Hj.
  destruct n1, n2; cbn -[Number_toString] in H;
    repeat (first [discriminate H | injection H as H]);
    try (split; [reflexivity | now apply Number_toString_inj]).
  - rewrite H in Hi. cbn in Hi. lia.
  - rewrite <- H in Hj. cbn in Hj. lia.
Qed.

(** X12.  The name under which [on] subscribes tells the event and the
    view apart: two subscriptions that differ in the event name or in the
    view's id never use the same emitter name, so a handler registered for
    one view is not reached by another view's events. *)
Theorem on_names_do_not_collide (this that : BrowserView)
    (name1 name2 : NavigationEvent) (h1 h2 : nat) :
  name1 <> name2 \/ view_id this <> view_id that ->
  fst (on this name1 h1) <> fst (on that name2 h2).
Proof.
  intros Hdiff Heq. cbn in Heq. apply specificName_inj in Heq as [Hn Hi].
  destruct Hdiff; contradiction.
Qed.

Lemma on_names_do_not_collide_witness :
  fst (on example_view did_navigate 0%nat)
  <> fst (on example_view did_navigate_in_page 1%nat).
Proof.
  apply on_names_do_not_collide. left. discriminate.
Defined.

(** * Further properties of dispatch and loading *)

Section DispatchFurther.

Variable call_function : nat -> list any -> outcome unit.

(** X13.  When the function stored under "*" throws, the listener stops
    there: the function stored under the message's name is not called, and
    the exception goes to whoever delivered the message. *)
Theorem wildcard_exception_skips_named_handler (config : RPCConfig)
    (messageHandlers : gmap (list N) nat) (name : jsstring) (payload : any)
    (globalHandler : nat) (e : exn) :
  handlers_messages config = Some messageHandlers ->
  messageHandlers !! str "*" = Some globalHandler ->
  call_function globalHandler [JString name; payload] = Thrown e ->
  receive_message (defineRPC call_function config) name payload
  = ([Call globalHandler [JString name; payload]], Thrown e).
Proof.
  intros Hm Hg He. rewrite (receive_message_listener _ _ messageHandlers)
    by assumption.
  unfold message_listener. rewrite (property_get_own _ _ _ Hg).
  unfold apply_member, call. cbn. now rewrite He.
Qed.

(** X14.  A message whose own name is "*" finds the wildcard function
    under its name too: that function is called twice, first with the name
    and the payload, then with the payload alone. *)
Theorem star_message_calls_wildcard_twice (config : RPCConfig)
    (messageHandlers : gmap (list N) nat) (payload : any) (globalHandler : nat) :
  handlers_messages config = Some messageHandlers ->
  messageHandlers !! str "*" = Some globalHandler ->
  call_function globalHandler [JString (str "*"); payload] = Returned tt ->
  trace (receive_message (defineRPC call_function config) (str "*") payload)
  = [Call globalHandler [JString (str "*"); payload];
     Call globalHandler [payload]].
Proof.
  intros Hm Hg Hret. rewrite (receive_message_listener _ _ messageHandlers)
    by assumption.
  unfold message_listener. rewrite (property_get_own _ _ _ Hg).
  unfold apply_member, call.
  cbn -[str]. rewrite Hret. cbn -[str].
  now destruct (call_function globalHandler [payload]).
Qed.

End DispatchFurther.

(** The wildcard function throws, every other function returns. *)
Definition throwing_call (fn : nat) (args : list any) : outcome unit :=
  match fn with
  | O => Thrown (ThrownValue (JString (str "boom")))
  | S _ => Returned tt
  end.

Definition empty_config : RPCConfig :=
  {| maxRequestTime := None; handlers_requests := None;
     handlers_messages := Some ∅ |}.

Example property_get_examples :
  property_get example_handlers (str "log") = Some (OwnFunction 1)
  /\ property_get example_handlers (str "resize") = None
  /\ property_get example_handlers (str "valueOf")
     = Some (InheritedFunction (str "valueOf"))
  /\ property_get example_handlers (str "__proto__") = Some PrototypeObject.
Proof. repeat split; vm_compute; reflexivity. Qed.

(** C8, as stated, fails.  With functions stored under "*" and under "log",
    a wildcard function that throws keeps the one under "log" from running.
    And with no function stored at all, a message named "__proto__" is an
    error: the read finds the prototype object, which cannot be called. *)
Lemma message_listener_skips_or_throws :
  (example_handlers !! str "log" = Some 1%nat
   /\ receive_message (defineRPC throwing_call example_config)
        (str "log") (JString (str "hello"))
      = ([Call 0 [JString (str "log"); JString (str "hello")]],
         Thrown (ThrownValue (JString (str "boom")))))
  /\ receive_message (defineRPC example_call empty_config) (str "__proto__") JNull
     = ([], Thrown TypeError).
Proof.
  split; [split|]; vm_compute; reflexivity.
Qed.

Lemma wildcard_exception_skips_named_handler_witness :
  receive_message (defineRPC throwing_call example_config)
    (str "log") (JString (str "hello"))
  = ([Call 0 [JString (str "log"); JString (str "hello")]],
     Thrown (ThrownValue (JString (str "boom")))).
Proof.
  apply (wildcard_exception_skips_named_handler throwing_call example_config
           example_handlers); reflexivity.
Defined.

Lemma star_message_calls_wildcard_twice_witness :
  trace (receive_message (defineRPC example_call example_config)
           (str "*") JNull)
  = [Call 0 [JString (str "*"); JNull]; Call 0 [JNull]].
Proof.
  apply (star_message_calls_wildcard_twice example_call example_config
           example_handlers); reflexivity.
Defined.

(** X15.  Loads compose field by field: a [loadURL] and a [loadHTML] leave
    the same view in either order, of two loads of the same kind the later
    one wins, and every directive goes to the id the view had from the
    start. *)
Theorem load_operations_compose (this : BrowserView) (u u' h : jsstring) :
  result (v <- loadURL this u ;; loadHTML v h)
  = result (v <- loadHTML this h ;; loadURL v u)
  /\ trace (v <- loadURL this u ;; loadHTML v h)
     = [ZigLoadURL (view_id this) u; ZigLoadHTML (view_id this) h]
  /\ result (v <- loadURL this u ;; loadURL v u') = result (loadURL this u')
  /\ (exists v, result (v <- loadURL this u ;; loadHTML v h) = Returned v
        /\ view_id v = view_id this /\ pipePrefix v = pipePrefix this
        /\ frame v = frame this /\ url v = Some u /\ html v = Some h).
Proof.
  split; [reflexivity|]. split; [reflexivity|]. split; [reflexivity|].
  eexists. repeat split.
Qed.

(** * The webview tag *)

(** The argument of [internalSyncRpcHandlers.webviewTagInit]. *)
Record WebviewTagInitParams : Type := {
  tag_hostWebviewId : option N;
  tag_windowId : N;
  tag_url : option jsstring;
  tag_html : option jsstring;
  tag_preload : option jsstring;
  tag_partition : option jsstring;
  tag_frame : option PartialFrame;
}.

(** What the callback given to [setTimeout] does when it runs, besides the
    events of the view. *)
Inductive timer_event : Type :=
| AddWebviewToWindow (windowId webviewId : N)
| ViewEvent (ev : event).

(** The callback, run on the view as it is by then. *)
Definition webviewTagInit_timeout (p : WebviewTagInitParams)
    (webviewForTag : BrowserView) : list timer_event * outcome BrowserView :=
  let attach := AddWebviewToWindow (tag_windowId p) (view_id webviewForTag) in
  match tag_url p with
  | Some (c :: u) =>
      let m := loadURL webviewForTag (c :: u) in
      (attach :: map ViewEvent (trace m), result m)
  | _ =>
      match tag_html p with
      | Some (c :: h) =>
          let m := loadHTML webviewForTag (c :: h) in
          (attach :: map ViewEvent (trace m), result m)
      | _ => ([attach], Returned webviewForTag)
      end
  end.

Section WebviewTag.

Variable hash : jsstring.
Variable randomId : jsstring.
Variable execSync : jsstring -> outcome unit.

(** The synchronous part: it constructs the view and returns its id; the
    view is handed on to the callback. *)
Definition webviewTagInit (g : Globals) (randomBytes32 : list N)
    (p : WebviewTagInitParams) : M (N * BrowserView * Globals) :=
  made <- new_BrowserView hash randomId execSync g randomBytes32
            (Some {| opt_url := tag_url p;
                     opt_html := tag_html p;
                     opt_preload := tag_preload p;
                     opt_partition := tag_partition p;
                     opt_frame := tag_frame p;
                     opt_rpc := None;
                     opt_hostWebviewId := tag_hostWebviewId p;
                     opt_autoResize := JBool false |}) ;;
  ret (view_id (fst made), fst made, snd made).

(** X16.  [webviewTagInit] returns the id the counter held, of a view that
    is registered under that id, never resizes automatically, has the host
    view it was given and no RPC of its own, whatever [mkfifo] did. *)
Theorem webviewTagInit_registers_fixed_size_view (g : Globals)
    (key : list N) (p : WebviewTagInitParams) :
  exists t v g',
    webviewTagInit g key p = (t, Returned (view_id v, v, g'))
    /\ view_id v = nextWebviewId g
    /\ nextWebviewId g' = (nextWebviewId g + 1)%N
    /\ getById g' (view_id v) = Some v
    /\ autoResize v = false
    /\ hostWebviewId v = tag_hostWebviewId p
    /\ rpc v = None
    /\ (forall r id, ~ In (SetTransport r id) t).
Proof.
  unfold webviewTagInit. rewrite new_BrowserView_runs. cbv zeta.
  rewrite bind_returned. cbn [fst snd ret trace result].
  eexists _, _, _. split; [reflexivity|].
  cbn [view_id with_streams constructor_fields nextWebviewId autoResize
       hostWebviewId rpc default opt_autoResize opt_hostWebviewId opt_rpc].
  unfold getById. cbn [BrowserViewMap].
  repeat (split; [first [reflexivity | apply lookup_insert_eq]|]).
  intros r id. rewrite app_nil_r, createStreams_runs.
  cbn [trace fst rpc constructor_fields default opt_rpc].
  unfold mkfifo_events.
  intros [H | H]; [discriminate H|].
  rewrite !in_app_iff in H.
  destruct H as [[H | H] | [[H | H] | [H | H]]]; try discriminate H.
  - destruct (execSync _); cbn in H; [tauto|]. destruct H as [H|[]]. discriminate H.
  - destruct (execSync _); cbn in H; [tauto|]. destruct H as [H|[]]. discriminate H.
  - cbn in H. destruct H as [H | [H | [H | []]]]; discriminate H.
  - destruct H.
Qed.

(** X17.  A tag that gives html and no url still gets a view whose url is
    the default "https://electrobun.dev": the creation directive carries
    both that url and the html.  The callback then attaches the view to the
    window and issues one [loadHTML], and no [loadURL]. *)
Theorem webviewTagInit_html_only (g : Globals) (key : list N)
    (p : WebviewTagInitParams) (c : N) (h : jsstring) :
  falsy (tag_url p) ->
  tag_html p = Some (c :: h) ->
  exists t v g' created,
    webviewTagInit g key p = (t, Returned (view_id v, v, g'))
    /\ head t = Some (ZigCreateWebview created)
    /\ url created = Some (str "https://electrobun.dev")
    /\ html created = Some (c :: h)
    /\ url v = Some (str "https://electrobun.dev")
    /\ html v = Some (c :: h)
    /\ fst (webviewTagInit_timeout p v)
       = [AddWebviewToWindow (tag_windowId p) (view_id v);
          ViewEvent (ZigLoadHTML (view_id v) (c :: h))].
Proof.
  intros Hurl Hhtml.
  unfold webviewTagInit. rewrite new_BrowserView_runs. cbv zeta.
  rewrite bind_returned. cbn [fst snd ret trace result].
  eexists _, _, _, _. split; [reflexivity|].
  cbn [head app url html with_streams constructor_fields default opt_url
       opt_html view_id].
  split; [reflexivity|].
  unfold webviewTagInit_timeout. rewrite Hhtml.
  destruct Hurl as [-> | ->]; repeat split.
Qed.

End WebviewTag.

(** A tag inside view 1 that gives html only. *)
Definition example_tag : WebviewTagInitParams :=
  {| tag_hostWebviewId := Some 1%N; tag_windowId := 7;
     tag_url := None; tag_html := Some (str "<b>hi</b>");
     tag_preload := None; tag_partition := None; tag_frame := None |}.

Lemma webviewTagInit_html_only_witness :
  exists t v g' created,
    webviewTagInit example_hash example_randomId example_execSync
      initial_globals example_key example_tag
    = (t, Returned (view_id v, v, g'))
    /\ head t = Some (ZigCreateWebview created)
    /\ url created = Some (str "https://electrobun.dev")
    /\ html created = Some (str "<b>hi</b>")
    /\ url v = Some (str "https://electrobun.dev")
    /\ html v = Some (str "<b>hi</b>")
    /\ fst (webviewTagInit_timeout example_tag v)
       = [AddWebviewToWindow (tag_windowId example_tag) (view_id v);
          ViewEvent (ZigLoadHTML (view_id v) (str "<b>hi</b>"))].
Proof.
  exact (webviewTagInit_html_only example_hash example_randomId
           example_execSync initial_globals example_key example_tag
           60%N (str "b>hi</b>") (or_introl eq_refl) eq_refl).
Defined.
